(** * playwright-test-reporter: the result-aggregation engine

  A shallow embedding of [TestUtils] (utils.ts) and of the reporter's
  lifecycle callbacks (reporter.ts), with the properties of the
  specification stated and proved over it.

  Conventions.
  - A JS [string] is a [String.string]; [String.prototype.includes] is
    the case-sensitive substring test [includes].
  - A JS [number] holding a duration is a rational [Q]; a counter is a [Z].
    Durations are only compared and copied, except by
    [calculateAverageTime], whose additions and division round to
    binary64 as the machine does ([Binary64]).
  - [Map<string, TestRecord>] iterates in insertion order, and the order
    is visible in the results, so the store is an association list.
  - A property access on [undefined] raises [TypeError]; functions that
    can reach one return [Result]. *)

From Stdlib Require Import String Ascii List Bool ZArith QArith Lia.
From Stdlib Require Import Permutation Sorted Lqa.
Import ListNotations.

Local Open Scope string_scope.
Local Open Scope list_scope.

(* ===================================================================== *)
(** ** JavaScript strings *)
(* ===================================================================== *)

Module JsString.

(** [s.includes(needle)]: [needle] occurs in [s] as a contiguous run of
    characters, compared exactly (case-sensitive). *)
Fixpoint includes (s needle : string) : bool :=
  if String.prefix needle s then true
  else match s with
       | EmptyString => false
       | String _ s' => includes s' needle
       end.

(** [a || b] on strings: the empty string is falsy. *)
Definition or_else (a b : string) : string :=
  match a with EmptyString => b | _ => a end.

(** [a?.f || b] where the field may be absent: [undefined] and [''] are
    both falsy. *)
Definition opt_or_else (a : option string) (b : string) : string :=
  match a with Some s => or_else s b | None => b end.

(** [xs.join(sep)] *)
Fixpoint join (sep : string) (xs : list string) : string :=
  match xs with
  | [] => ""
  | [x] => x
  | x :: rest => x ++ sep ++ join sep rest
  end.

Definition newline : string := String (ascii_of_nat 10) EmptyString.

End JsString.

Import JsString.

(* ===================================================================== *)
(** ** Binary64 arithmetic *)
(* ===================================================================== *)

Module Binary64.

(** The value of an arithmetic expression: a binary64 number, given by
    the rational it stands for, an infinity or NaN.  The sign of zero is
    not kept. *)
Inductive JsNumber : Type :=
| Finite (q : Q)
| PlusInfinity
| MinusInfinity
| NotANumber.

(** [num / den] rounded to the nearest integer, a tie going to the even
    one. *)
Definition round_half_even (num : Z) (den : positive) : Z :=
  let qt := (num / Zpos den)%Z in
  let rem := (num mod Zpos den)%Z in
  match (2 * rem ?= Zpos den)%Z with
  | Lt => qt
  | Gt => (qt + 1)%Z
  | Eq => if Z.even qt then qt else (qt + 1)%Z
  end.

(** The binary64 number nearest to [q] (ties to even): a significand of
    53 bits at an exponent no lower than -1074, an infinity from
    [2^1024 - 2^970] on. *)
Definition round64 (q : Q) : JsNumber :=
  let n := Z.abs (Qnum q) in
  let d := Qden q in
  if (n =? 0)%Z then Finite 0
  else
    let e0 := (Z.log2 n - Z.log2 (Zpos d) - 52)%Z in
    let below :=
      if (0 <=? 52 + e0)%Z
      then (n <? Zpos d * 2 ^ (52 + e0))%Z
      else (n * 2 ^ (- (52 + e0)) <? Zpos d)%Z in
    let e := Z.max (if below then e0 - 1 else e0) (-1074) in
    let m :=
      if (0 <=? e)%Z
      then round_half_even n (d * Z.to_pos (2 ^ e))
      else round_half_even (n * 2 ^ (- e)) d in
    if (0 <=? e)%Z && (2 ^ 1024 <=? m * 2 ^ e)%Z
    then (if (0 <? Qnum q)%Z then PlusInfinity else MinusInfinity)
    else
      let s := Z.sgn (Qnum q) in
      if (0 <=? e)%Z then Finite (inject_Z (s * m * 2 ^ e))
      else Finite ((s * m) # Z.to_pos (2 ^ (- e))).

(** [x + y] *)
Definition fadd (x y : JsNumber) : JsNumber :=
  match x, y with
  | Finite a, Finite b => round64 (a + b)
  | NotANumber, _ | _, NotANumber => NotANumber
  | PlusInfinity, MinusInfinity | MinusInfinity, PlusInfinity => NotANumber
  | PlusInfinity, _ | _, PlusInfinity => PlusInfinity
  | MinusInfinity, _ | _, MinusInfinity => MinusInfinity
  end.

(** [x / y] *)
Definition fdiv (x y : JsNumber) : JsNumber :=
  match x, y with
  | NotANumber, _ | _, NotANumber => NotANumber
  | Finite a, Finite b =>
      if (Qnum b =? 0)%Z
      then (if (Qnum a =? 0)%Z then NotANumber
            else if (0 <? Qnum a)%Z then PlusInfinity else MinusInfinity)
      else round64 (a / b)
  | Finite _, _ => Finite 0
  | PlusInfinity, Finite b =>
      if (Qnum b <? 0)%Z then MinusInfinity else PlusInfinity
  | MinusInfinity, Finite b =>
      if (Qnum b <? 0)%Z then PlusInfinity else MinusInfinity
  | _, _ => NotANumber
  end.

(** Two numbers are the same number. *)
Definition same (x y : JsNumber) : bool :=
  match x, y with
  | Finite a, Finite b => Qeq_bool a b
  | PlusInfinity, PlusInfinity | MinusInfinity, MinusInfinity => true
  | _, _ => false
  end.

End Binary64.

(* ===================================================================== *)
(** ** TestUtils.categorizeError (utils.ts) *)
(* ===================================================================== *)

Definition categorizeError (message : string) : string :=
  if includes message "No node found" || includes message "not visible" then
    "ElementNotFound"
  else if includes message "Timeout" || includes message "timed out" then
    "Timeout/DelayedElement"
  else if includes message "selector" || includes message "locator" then
    "SelectorChanged"
  else if includes message "expect(" || includes message "assertion failed" then
    "AssertionFailure"
  else if includes message "Network" || includes message "fetch failed"
          || includes message "status=" then
    "NetworkError"
  else if includes message "javascript error"
          || includes message "undefined is not"
          || includes message "null" then
    "JavaScriptError"
  else if includes message "navigation" || includes message "page.goto" then
    "NavigationError"
  else if includes message "element is not clickable"
          || includes message "intercepted" then
    "ElementInteractionError"
  else if includes message "permission" || includes message "access denied" then
    "PermissionError"
  else
    "Unknown".

(** The classifier as the specification words it: an ordered table of
  rules, each a set of substrings and a category, scanned from the top;
  the first rule one of whose substrings occurs decides, and [Unknown]
  is the answer when none does. *)
Module ClassifierSpec.

Record Rule := { patterns : list string; category : string }.

Definition rules : list Rule :=
  [ {| patterns := ["No node found"; "not visible"];
       category := "ElementNotFound" |};
    {| patterns := ["Timeout"; "timed out"];
       category := "Timeout/DelayedElement" |};
    {| patterns := ["selector"; "locator"];
       category := "SelectorChanged" |};
    {| patterns := ["expect("; "assertion failed"];
       category := "AssertionFailure" |};
    {| patterns := ["Network"; "fetch failed"; "status="];
       category := "NetworkError" |};
    {| patterns := ["javascript error"; "undefined is not"; "null"];
       category := "JavaScriptError" |};
    {| patterns := ["navigation"; "page.goto"];
       category := "NavigationError" |};
    {| patterns := ["element is not clickable"; "intercepted"];
       category := "ElementInteractionError" |};
    {| patterns := ["permission"; "access denied"];
       category := "PermissionError" |} ].

Definition matches (message : string) (r : Rule) : bool :=
  existsb (includes message) (patterns r).

Fixpoint first_match (rs : list Rule) (message : string) : string :=
  match rs with
  | [] => "Unknown"
  | r :: rest =>
      if matches message r then category r else first_match rest message
  end.

Definition classify (message : string) : string := first_match rules message.

End ClassifierSpec.

(* ===================================================================== *)
(** ** Exceptions and the store-passing monad *)
(* ===================================================================== *)

(** The only exception the modelled code can raise by itself: reading a
    property of [undefined]. *)
Inductive Exn : Type :=
| TypeError (what : string).

Inductive Result (A : Type) : Type :=
| Ok (a : A)
| Throw (e : Exn).

Arguments Ok {A} a.
Arguments Throw {A} e.

Definition is_ok {A} (r : Result A) : bool :=
  match r with Ok _ => true | Throw _ => false end.

(** Code that receives a reference to a mutable object of type [S] and
    may raise: it returns its result together with the object as it left
    it. *)
Definition M (S A : Type) : Type := S -> Result A * S.

Definition ret {S A} (a : A) : M S A := fun s => (Ok a, s).

Definition throw {S A} (e : Exn) : M S A := fun s => (Throw e, s).

Definition bind {S A B} (m : M S A) (k : A -> M S B) : M S B :=
  fun s =>
    match m s with
    | (Ok a, s') => k a s'
    | (Throw e, s') => (Throw e, s')
    end.

Definition gets {S A} (f : S -> A) : M S A := fun s => (Ok (f s), s).

Definition modify {S} (f : S -> S) : M S unit := fun s => (Ok tt, f s).

Declare Scope js_scope.
Delimit Scope js_scope with js.
Notation "x <- m ;; k" := (bind m (fun x => k))
  (at level 61, m at next level, right associativity) : js_scope.
Notation "m ;;; k" := (bind m (fun _ => k))
  (at level 61, right associativity) : js_scope.

(** [for (const x of xs) { acc = body(acc, x) }] *)
Fixpoint for_of {S A B} (body : B -> A -> M S B) (xs : list A) (acc : B)
  : M S B :=
  match xs with
  | [] => ret acc
  | x :: rest => bind (body acc x) (for_of body rest)
  end.

(* ===================================================================== *)
(** ** Data model (types.ts) *)
(* ===================================================================== *)

(** [TestResult['status']] *)
Inductive Status : Type :=
| passed | failed | timedOut | skipped | interrupted.

Definition Status_eqb (a b : Status) : bool :=
  match a, b with
  | passed, passed | failed, failed | timedOut, timedOut
  | skipped, skipped | interrupted, interrupted => true
  | _, _ => false
  end.

Record Location : Type := {
  file : string;
  line : Z;
  column : Z
}.

Record TestError : Type := {
  message : string;
  stack : option string
}.

Record AttemptInfo : Type := {
  status : Status;
  duration : Q;
  errors : list TestError
}.

(** The optional [duration] field is never set and is left out. *)
Record TestCaseDetails : Type := {
  testId : option string;
  testTitle : string;
  suiteTitle : string;
  testFile : option string;
  location : option Location;
  tc_status : option string;      (* status?: string *)
  outcome : option string;
  owningTeam : option string
}.

Record TestRecord : Type := {
  test : TestCaseDetails;
  attempts : list AttemptInfo
}.

Record TestFailure : Type := {
  f_testId : option string;
  f_testTitle : string;
  f_suiteTitle : string;
  f_owningTeam : string;
  errorMessage : string;
  errorStack : string;
  f_duration : Q;
  isTimeout : bool;
  errorCategory : string;
  f_testFile : option string;
  f_location : option Location
}.

Record SlowTest : Type := {
  st_testTitle : string;
  st_duration : Q
}.

Record BuildInfo : Type := {
  isPipeline : bool;
  executionSystem : option string;
  artifactsLink : option string;
  buildLink : option string;
  buildId : option string;
  buildNumber : option string;
  buildBranch : option string;
  buildRepository : option string;
  commitId : option string;
  commitLink : option string;
  testLink : option string
}.

Record TestSummary : Type := {
  failures : list TestFailure;
  testCount : Z;
  passedCount : Z;
  skippedCount : Z;
  failedCount : Z;
  totalTimeDisplay : string;
  averageTime : Binary64.JsNumber;
  slowestTest : Q;
  slowestTests : list SlowTest;
  buildInfo : option BuildInfo
}.

Record ReporterConfig : Type := {
  slowTestThreshold : Q;
  maxSlowTestsToShow : Z;
  timeoutWarningThreshold : Q;
  showStackTrace : bool;
  cfg_outputDir : string;
  generateFix : bool
}.

(* ===================================================================== *)
(** ** Map<string, TestRecord> *)
(* ===================================================================== *)

(** Entries in insertion order; [set] on a present key keeps its place. *)
Definition Store : Type := list (string * TestRecord).

Module JsMap.

Fixpoint get (k : string) (m : Store) : option TestRecord :=
  match m with
  | [] => None
  | (k', v) :: rest => if String.eqb k k' then Some v else get k rest
  end.

Definition has (k : string) (m : Store) : bool :=
  match get k m with Some _ => true | None => false end.

Fixpoint set (k : string) (v : TestRecord) (m : Store) : Store :=
  match m with
  | [] => [(k, v)]
  | (k', v') :: rest =>
      if String.eqb k k' then (k, v) :: rest else (k', v') :: set k v rest
  end.

Definition values (m : Store) : list TestRecord := map snd m.

Definition keys (m : Store) : list string := map fst m.

End JsMap.

(* ===================================================================== *)
(** ** Arrays *)
(* ===================================================================== *)

Module JsArray.

(** [xs.slice(0, end)] for an integral [end]: a negative [end] counts
    from the end of the array. *)
Definition slice0 {A} (xs : list A) (end_ : Z) : list A :=
  let len := Z.of_nat (length xs) in
  let final := if (end_ <? 0)%Z then Z.max (len + end_) 0 else Z.min end_ len in
  firstn (Z.to_nat final) xs.

(** [xs[xs.length - 1]], [undefined] on the empty array. *)
Definition last_elem {A} (xs : list A) : option A :=
  nth_error xs (length xs - 1).

(** [xs.sort(cmp)].  The sort is stable: [x] is placed before [y] when
    [cmp x y < 0], after it when [cmp x y > 0], and elements that compare
    equal keep the order they had.  The result of a stable sort does not
    depend on the algorithm; insertion from the right computes it. *)
Fixpoint insert {A} (cmp : A -> A -> Q) (x : A) (sorted : list A) : list A :=
  match sorted with
  | [] => [x]
  | y :: rest =>
      if Qle_bool (cmp x y) 0 then x :: y :: rest
      else y :: insert cmp x rest
  end.

Fixpoint sort {A} (cmp : A -> A -> Q) (xs : list A) : list A :=
  match xs with
  | [] => []
  | x :: rest => insert cmp x (sort cmp rest)
  end.

End JsArray.

(* ===================================================================== *)
(** ** TestUtils (utils.ts) *)
(* ===================================================================== *)

(** Keys of the [Team] enum object, in declaration order. *)
Definition Team : list string :=
  [ "Frontend"; "Backend"; "QA"; "DevOps"; "Performance"; "Security";
    "Accessibility"; "Mobile"; "API"; "Database"; "Analytics";
    "Infrastructure"; "Monitoring"; "Documentation"; "Support"; "Marketing";
    "Sales"; "Training"; "Research"; "Compliance"; "Legal"; "Product";
    "Design"; "UserExperience"; "UserInterface"; "BusinessIntelligence";
    "DataScience"; "DataEngineering"; "DataAnalytics"; "DataVisualization";
    "DataGovernance"; "DataQuality" ].

Definition FallbackTeam : string := "Unknown".

(** [durations.reduce((sum, duration) => sum + duration, 0) / durations.length]:
    each duration is the binary64 number it is stored as, and the sum and
    the quotient are rounded. *)
Definition calculateAverageTime (durations : list Q) : Binary64.JsNumber :=
  match durations with
  | [] => Binary64.Finite 0
  | _ =>
      Binary64.fdiv
        (fold_left (fun sum duration =>
                      Binary64.fadd sum (Binary64.round64 duration))
                   durations (Binary64.Finite 0))
        (Binary64.Finite (inject_Z (Z.of_nat (length durations))))
  end.

(** [Math.max(...xs, 0)] *)
Definition max_with_zero (xs : list Q) : Q :=
  fold_left (fun m x => if Qle_bool m x then x else m) xs 0.

Definition is_passed (a : AttemptInfo) : bool := Status_eqb (status a) passed.

(** The comparator [(a, b) => b.duration - a.duration]. *)
Definition by_duration_desc (a b : SlowTest) : Q :=
  st_duration b - st_duration a.

(** The pool the ranking draws from: one entry per passed attempt, in
    the order the records and their attempts are met. *)
Definition passed_attempts (records : list TestRecord) : list SlowTest :=
  flat_map
    (fun r =>
       map (fun a => {| st_testTitle := testTitle (test r);
                        st_duration := duration a |})
           (filter is_passed (attempts r)))
    records.

Definition findSlowestTests (testRecords : Store) (limit : Z) : list SlowTest :=
  JsArray.slice0
    (JsArray.sort by_duration_desc (passed_attempts (JsMap.values testRecords)))
    limit.

Definition outcomeToStatus (outcome : string) : string :=
  if String.eqb outcome "skipped" then "skipped"
  else if String.eqb outcome "expected" then "passed"
  else if String.eqb outcome "unexpected" then "failed"
  else if String.eqb outcome "flaky" then "failed"
  else outcome.

(** What [processTestResults] returns. *)
Record ProcessedResults : Type := {
  r_passedCount : Z;
  r_testCount : Z;
  r_skippedCount : Z;
  r_failedCount : Z;
  r_failures : list TestFailure;
  r_passedDurations : list Q
}.

(** The local variables of [processTestResults] that the loop updates. *)
Record Locals : Type := {
  l_passedCount : Z;
  l_testCount : Z;
  l_skippedCount : Z;
  l_failures : list TestFailure;
  l_passedDurations : list Q
}.

Definition locals0 : Locals :=
  {| l_passedCount := 0; l_testCount := 0; l_skippedCount := 0;
     l_failures := []; l_passedDurations := [] |}.

Definition outcome_is (o : option string) (label : string) : bool :=
  match o with Some s => String.eqb s label | None => false end.

(** A template literal prints [undefined] for an absent value. *)
Definition show_outcome (o : option string) : string :=
  match o with Some s => s | None => "undefined" end.

(** The failure pushed for a record whose outcome is [unexpected]. *)
Definition unexpected_failure (t : TestCaseDetails) (finalAttempt : AttemptInfo)
  : TestFailure :=
  let isTimeout := existsb (fun e => includes (message e) "timeout")
                           (errors finalAttempt) in
  let combinedStack :=
    join newline
         (map (fun e => opt_or_else (stack e) "") (errors finalAttempt)) in
  let errorMessage :=
    opt_or_else (option_map message (hd_error (errors finalAttempt))) "" in
  let errorCategory := categorizeError errorMessage in
  {| f_testId := testId t;
     f_testTitle := testTitle t;
     f_suiteTitle := or_else (suiteTitle t) "Unknown Suite";
     errorMessage := errorMessage;
     errorStack := combinedStack;
     f_duration := duration finalAttempt;
     f_owningTeam := opt_or_else (owningTeam t) "Unknown Team";
     isTimeout := isTimeout;
     errorCategory := errorCategory;
     f_testFile := testFile t;
     f_location := location t |}.

(** The failure pushed for a record whose outcome is none of the four
    labels. *)
Definition unknown_outcome_failure (t : TestCaseDetails)
    (finalAttempt : AttemptInfo) : TestFailure :=
  let errorMessage :=
    if Status_eqb (status finalAttempt) interrupted
    then "Test was interrupted"
    else String.append "Unknown outcome: " (show_outcome (outcome t)) in
  let errorCategory := categorizeError errorMessage in
  {| f_testId := testId t;
     f_testTitle := testTitle t;
     f_suiteTitle := or_else (suiteTitle t) "Unknown Suite";
     errorMessage := errorMessage;
     errorStack := "";
     f_duration := duration finalAttempt;
     f_owningTeam := opt_or_else (owningTeam t) "Unknown Team";
     isTimeout := false;
     errorCategory := errorCategory;
     f_testFile := testFile t;
     f_location := location t |}.

(** [finalAttempt.f] where [finalAttempt = attempts[attempts.length - 1]]. *)
Definition deref_finalAttempt {S} (finalAttempt : option AttemptInfo)
  : M S AttemptInfo :=
  match finalAttempt with
  | Some a => ret a
  | None => throw (TypeError "Cannot read properties of undefined")
  end.

(** One iteration of the loop of [processTestResults]. *)
Definition processRecord (acc : Locals) (r : TestRecord) : M Store Locals :=
  let acc := {| l_passedCount := l_passedCount acc;
                l_testCount := l_testCount acc + 1;
                l_skippedCount := l_skippedCount acc;
                l_failures := l_failures acc;
                l_passedDurations := l_passedDurations acc |} in
  let finalOutcome := outcome (test r) in
  let finalAttempt := JsArray.last_elem (attempts r) in
  if outcome_is finalOutcome "expected" || outcome_is finalOutcome "flaky" then
    ret {| l_passedCount := l_passedCount acc + 1;
           l_testCount := l_testCount acc;
           l_skippedCount := l_skippedCount acc;
           l_failures := l_failures acc;
           l_passedDurations :=
             l_passedDurations acc
               ++ map duration (filter is_passed (attempts r)) |}
  else if outcome_is finalOutcome "unexpected" then
    (fa <- deref_finalAttempt finalAttempt ;;
     ret {| l_passedCount := l_passedCount acc;
            l_testCount := l_testCount acc;
            l_skippedCount := l_skippedCount acc;
            l_failures := l_failures acc ++ [unexpected_failure (test r) fa];
            l_passedDurations := l_passedDurations acc |})%js
  else if outcome_is finalOutcome "skipped" then
    ret {| l_passedCount := l_passedCount acc;
           l_testCount := l_testCount acc;
           l_skippedCount := l_skippedCount acc + 1;
           l_failures := l_failures acc;
           l_passedDurations := l_passedDurations acc |}
  else
    (fa <- deref_finalAttempt finalAttempt ;;
     ret {| l_passedCount := l_passedCount acc;
            l_testCount := l_testCount acc;
            l_skippedCount := l_skippedCount acc;
            l_failures :=
              l_failures acc ++ [unknown_outcome_failure (test r) fa];
            l_passedDurations := l_passedDurations acc |})%js.

Definition processTestResultsM : M Store ProcessedResults :=
  (records <- gets JsMap.values ;;
   acc <- for_of processRecord records locals0 ;;
   ret {| r_passedCount := l_passedCount acc;
          r_testCount := l_testCount acc;
          r_skippedCount := l_skippedCount acc;
          r_failedCount := Z.of_nat (length (l_failures acc));
          r_failures := l_failures acc;
          r_passedDurations := l_passedDurations acc |})%js.

(** The value [processTestResults(testRecords)] evaluates to. *)
Definition processTestResults (testRecords : Store) : Result ProcessedResults :=
  fst (processTestResultsM testRecords).

(* ===================================================================== *)
(** ** What the test runner hands to the reporter *)
(* ===================================================================== *)

(** [TestCase.outcome()] *)
Inductive Outcome : Type :=
| OSkipped | OExpected | OUnexpected | OFlaky.

Definition outcome_label (o : Outcome) : string :=
  match o with
  | OSkipped => "skipped"
  | OExpected => "expected"
  | OUnexpected => "unexpected"
  | OFlaky => "flaky"
  end.

Record Annotation : Type := {
  a_type : string;
  a_description : option string
}.

Record TestCase : Type := {
  id : string;
  title : string;
  parent_title : option string;        (* test.parent?.title *)
  case_location : option Location;
  case_outcome : Outcome;
  annotations : list Annotation
}.

(** The runner's error objects: both fields are optional. *)
Record RunnerError : Type := {
  e_message : option string;
  e_stack : option string
}.

Record TestResult : Type := {
  res_status : Status;
  res_duration : Q;                    (* milliseconds *)
  res_errors : list RunnerError;
  retry : Z
}.

(** A JS [Error]. *)
Record Error : Type := {
  err_message : string;
  err_stack : option string
}.

(** What the reporter reads from its surroundings. *)
Record Env : Type := {
  FALLBACK_TEAM : option string;       (* process.env.FALLBACK_TEAM *)
  now : Q;                             (* Date.now() *)
  formatTime : Q -> string;            (* TestUtils.formatTime *)
  getBuildInfo : BuildInfo;            (* BuildInfoUtils.getBuildInfo() *)
  writable : string -> bool            (* can this path be written? *)
}.

(** Property names every object inherits; [name in obj] finds them too. *)
Definition object_prototype_keys : list string :=
  [ "constructor"; "hasOwnProperty"; "isPrototypeOf"; "propertyIsEnumerable";
    "toLocaleString"; "toString"; "valueOf"; "__proto__";
    "__defineGetter__"; "__defineSetter__";
    "__lookupGetter__"; "__lookupSetter__" ].

(** [name in Team] *)
Definition in_Team (name : string) : bool :=
  existsb (String.eqb name) (Team ++ object_prototype_keys).

Definition wrap (text : string) : string :=
  String.append "[" (String.append text "]").

(** [annotations.find((a) => a.type === ty)?.description] *)
Definition annotation_description (ty : string) (anns : list Annotation)
  : option string :=
  match find (fun a => String.eqb (a_type a) ty) anns with
  | Some a => a_description a
  | None => None
  end.

(** [name && name in Team] *)
Definition recognised (name : option string) : option string :=
  match name with
  | Some s =>
      if negb (String.eqb s "") && in_Team s then Some s else None
  | None => None
  end.

Definition getOwningTeam (env : Env) (test : TestCase) : string :=
  let testName := or_else (title test) "" in
  match find (fun team => includes testName (wrap team)) Team with
  | Some team => team
  | None =>
      match recognised (annotation_description "team" (annotations test)) with
      | Some teamName => teamName
      | None =>
          match recognised
                  (annotation_description "owner" (annotations test)) with
          | Some ownerName => ownerName
          | None =>
              match recognised (FALLBACK_TEAM env) with
              | Some t => t
              | None => FallbackTeam
              end
          end
      end
  end.

(* ===================================================================== *)
(** ** The reporter and the process it runs in (reporter.ts) *)
(* ===================================================================== *)

Inductive FileContent : Type :=
| SummaryJson (summary : TestSummary) (tests : list TestCaseDetails)
| FailuresJson (fs : list TestFailure)
| LastRunJson (status : string) (failedTests : list string).

(** One constructor per place that prints; the colour codes and the
    layout of the lines are not modelled. *)
Inductive ConsoleLine : Type :=
| SetupErrorLine (e : Error) (withStack : bool)
| TestOutcomeLine (title : string) (st : Status) (retry : Z) (seconds : Q)
| NoTestsFoundLine
| FixSuggestionsLines (fs : list TestFailure)
| SummaryLines (s : TestSummary)
| NonTestErrorsLines (es : list Error) (withStack : bool)
| FailuresLines (fs : list TestFailure)
| InterruptedLine
| WriteFailedLine (path : string).

(** Modelled from the spec: [FileHandler] (fileHandler.ts is not among
    the sources).  It keeps the failures handed to [addFailure], and
    [writeSummary] writes [testSummary.json] (the summary and the
    per-test details) and [testFailures.json] (the failure list) under
    the output directory; a write that fails is reported and swallowed. *)
Record FileHandler : Type := {
  fh_outputDir : string;
  fh_failures : list TestFailure
}.

Record State : Type := {
  (* fields of PlaywrightTestReporter *)
  outputDir : string;
  _testRecords : Store;
  _startTime : Q;
  _config : ReporterConfig;
  _nonTestErrors : list Error;
  _hasInterruptedTests : bool;
  _fileHandler : FileHandler;
  (* the process *)
  console : list ConsoleLine;
  files : list (string * FileContent);
  exitCode : option Z
}.

Record ReporterConfigInput : Type := {
  in_slowTestThreshold : option Q;
  in_maxSlowTestsToShow : option Z;
  in_timeoutWarningThreshold : option Q;
  in_showStackTrace : option bool;
  in_outputDir : option string;
  in_generateFix : option bool
}.

(** [a ?? b] *)
Definition nullish {A} (a : option A) (b : A) : A :=
  match a with Some x => x | None => b end.

Definition constructor (config : ReporterConfigInput) : State :=
  let cfg :=
    {| slowTestThreshold := nullish (in_slowTestThreshold config) 5;
       maxSlowTestsToShow := nullish (in_maxSlowTestsToShow config) 3%Z;
       timeoutWarningThreshold := nullish (in_timeoutWarningThreshold config) 30;
       showStackTrace := nullish (in_showStackTrace config) true;
       cfg_outputDir := nullish (in_outputDir config) "./test-results";
       generateFix := nullish (in_generateFix config) false |} in
  {| outputDir := cfg_outputDir cfg;
     _testRecords := [];
     _startTime := 0;
     _config := cfg;
     _nonTestErrors := [];
     _hasInterruptedTests := false;
     _fileHandler := {| fh_outputDir := cfg_outputDir cfg; fh_failures := [] |};
     console := [];
     files := [];
     exitCode := None |}.

(** *** Field updates *)

Definition with_testRecords (m : Store) (s : State) : State :=
  {| outputDir := outputDir s; _testRecords := m;
     _startTime := _startTime s; _config := _config s;
     _nonTestErrors := _nonTestErrors s;
     _hasInterruptedTests := _hasInterruptedTests s;
     _fileHandler := _fileHandler s; console := console s;
     files := files s; exitCode := exitCode s |}.

Definition with_nonTestErrors (es : list Error) (s : State) : State :=
  {| outputDir := outputDir s; _testRecords := _testRecords s;
     _startTime := _startTime s; _config := _config s;
     _nonTestErrors := es;
     _hasInterruptedTests := _hasInterruptedTests s;
     _fileHandler := _fileHandler s; console := console s;
     files := files s; exitCode := exitCode s |}.

Definition with_hasInterruptedTests (b : bool) (s : State) : State :=
  {| outputDir := outputDir s; _testRecords := _testRecords s;
     _startTime := _startTime s; _config := _config s;
     _nonTestErrors := _nonTestErrors s;
     _hasInterruptedTests := b;
     _fileHandler := _fileHandler s; console := console s;
     files := files s; exitCode := exitCode s |}.

Definition with_fileHandler (fh : FileHandler) (s : State) : State :=
  {| outputDir := outputDir s; _testRecords := _testRecords s;
     _startTime := _startTime s; _config := _config s;
     _nonTestErrors := _nonTestErrors s;
     _hasInterruptedTests := _hasInterruptedTests s;
     _fileHandler := fh; console := console s;
     files := files s; exitCode := exitCode s |}.

Definition with_console (c : list ConsoleLine) (s : State) : State :=
  {| outputDir := outputDir s; _testRecords := _testRecords s;
     _startTime := _startTime s; _config := _config s;
     _nonTestErrors := _nonTestErrors s;
     _hasInterruptedTests := _hasInterruptedTests s;
     _fileHandler := _fileHandler s; console := c;
     files := files s; exitCode := exitCode s |}.

Definition with_files (f : list (string * FileContent)) (s : State) : State :=
  {| outputDir := outputDir s; _testRecords := _testRecords s;
     _startTime := _startTime s; _config := _config s;
     _nonTestErrors := _nonTestErrors s;
     _hasInterruptedTests := _hasInterruptedTests s;
     _fileHandler := _fileHandler s; console := console s;
     files := f; exitCode := exitCode s |}.

Definition with_exitCode (c : option Z) (s : State) : State :=
  {| outputDir := outputDir s; _testRecords := _testRecords s;
     _startTime := _startTime s; _config := _config s;
     _nonTestErrors := _nonTestErrors s;
     _hasInterruptedTests := _hasInterruptedTests s;
     _fileHandler := _fileHandler s; console := console s;
     files := files s; exitCode := c |}.

(** *** Primitive actions *)

(** Run code that holds a reference to [this._testRecords]. *)
Definition on_testRecords {A} (m : M Store A) : M State A :=
  fun s =>
    let (r, store') := m (_testRecords s) in
    (r, with_testRecords store' s).

Definition log (l : ConsoleLine) : M State unit :=
  modify (fun s => with_console (console s ++ [l]) s).

Definition when {S} (b : bool) (m : M S unit) : M S unit :=
  if b then m else ret tt.

(** [path.join(dir, name)] for a plain file name. *)
Definition path_join (dir name : string) : string :=
  String.append dir (String.append "/" name).

(** [try { fs.writeFileSync(path, ...) } catch { console.error(...) }] *)
Definition try_write (env : Env) (path : string) (c : FileContent)
  : M State unit :=
  if writable env path
  then modify (fun s => with_files (files s ++ [(path, c)]) s)
  else log (WriteFailedLine path).

(** Modelled from the spec: [FileHandler.addFailure]. *)
Definition addFailure (f : TestFailure) : M State unit :=
  modify (fun s =>
    with_fileHandler
      {| fh_outputDir := fh_outputDir (_fileHandler s);
         fh_failures := fh_failures (_fileHandler s) ++ [f] |} s).

(** Modelled from the spec: [FileHandler.writeSummary]. *)
Definition writeSummary (env : Env) (summary : TestSummary)
    (allTestCases : list TestCaseDetails) : M State unit :=
  (fh <- gets _fileHandler ;;
   try_write env (path_join (fh_outputDir fh) "testSummary.json")
             (SummaryJson summary allTestCases) ;;;
   try_write env (path_join (fh_outputDir fh) "testFailures.json")
             (FailuresJson (fh_failures fh)))%js.

Definition _exitWithSuccess : M State unit :=
  modify (with_exitCode (Some 0%Z)).

Definition _exitWithError : M State unit :=
  modify (with_exitCode (Some 1%Z)).

(** *** onError *)

Definition onError (error : Error) : M State unit :=
  (cfg <- gets _config ;;
   log (SetupErrorLine error
          (match err_stack error with
           | Some s => negb (String.eqb s "") && showStackTrace cfg
           | None => false
           end)) ;;;
   modify (fun s => with_nonTestErrors (_nonTestErrors s ++ [error]) s))%js.

(** *** onTestEnd *)

Definition testCaseDetails_of (env : Env) (test : TestCase) : TestCaseDetails :=
  {| testId := Some (id test);
     testTitle := title test;
     suiteTitle := opt_or_else (parent_title test) "Unknown Suite";
     testFile := option_map file (case_location test);
     location := case_location test;
     outcome := Some (outcome_label (case_outcome test));
     tc_status := Some (outcomeToStatus (outcome_label (case_outcome test)));
     owningTeam := Some (getOwningTeam env test) |}.

Definition attempt_of (result : TestResult) : AttemptInfo :=
  {| status := res_status result;
     duration := res_duration result / 1000;
     errors :=
       map (fun e => {| message := opt_or_else (e_message e) "No error message";
                        stack := e_stack e |})
           (res_errors result) |}.

(** [result.errors[0]?.f] *)
Definition first_error_field (f : RunnerError -> option string)
    (result : TestResult) : option string :=
  match res_errors result with
  | [] => None
  | e :: _ => f e
  end.

(** The record handed to [addFailure] for a failed or timed-out attempt. *)
Definition provisional_failure (env : Env) (test : TestCase)
    (result : TestResult) : TestFailure :=
  let errorMessage :=
    opt_or_else (first_error_field e_message result) "Unknown error" in
  let errorCategory := categorizeError errorMessage in
  {| f_testId := Some (id test);
     f_testTitle := title test;
     f_suiteTitle := opt_or_else (parent_title test) "Unknown Suite";
     errorMessage := errorMessage;
     errorStack := opt_or_else (first_error_field e_stack result) "";
     f_duration := res_duration result / 1000;
     f_owningTeam := getOwningTeam env test;
     isTimeout := Status_eqb (res_status result) timedOut;
     errorCategory := errorCategory;
     f_testFile := option_map file (case_location test);
     f_location := case_location test |}.

(** [testRecord.attempts.push(a)] on the record the map holds. *)
Definition push_attempt (a : AttemptInfo) (r : TestRecord) : TestRecord :=
  {| test := test r; attempts := attempts r ++ [a] |}.

Definition _logTestOutcome (title : string) (result : TestResult)
    (timeTakenSec : Q) : M State unit :=
  log (TestOutcomeLine title (res_status result) (retry result) timeTakenSec).

Definition onTestEnd (env : Env) (test : TestCase) (result : TestResult)
  : M State unit :=
  let title := title test in
  let timeTakenSec := res_duration result / 1000 in
  (known <- gets (fun s => JsMap.has title (_testRecords s)) ;;
   when (negb known)
     (modify (fun s =>
        with_testRecords
          (JsMap.set title
             {| test := testCaseDetails_of env test; attempts := [] |}
             (_testRecords s)) s)) ;;;
   testRecord <- gets (fun s => JsMap.get title (_testRecords s)) ;;
   match testRecord with
   | Some r =>
       modify (fun s =>
         with_testRecords
           (JsMap.set title (push_attempt (attempt_of result) r)
              (_testRecords s)) s)
   | None => ret tt
   end ;;;
   when (Status_eqb (res_status result) failed
         || Status_eqb (res_status result) timedOut)
     (addFailure (provisional_failure env test result)) ;;;
   when (Status_eqb (res_status result) interrupted)
     (modify (with_hasInterruptedTests true)) ;;;
   _logTestOutcome title result timeTakenSec)%js.

(** *** onEnd *)

Definition status_is_failed (r : TestRecord) : bool :=
  match tc_status (test r) with
  | Some s => String.eqb s "failed"
  | None => false
  end.

Definition saveLastRunStatus (env : Env) (hasFailed : bool) : M State unit :=
  (records <- on_testRecords (gets JsMap.values) ;;
   let failedTests :=
     map (fun r => opt_or_else (testId (test r)) "")
         (filter status_is_failed records) in
   dir <- gets outputDir ;;
   try_write env (path_join dir ".last-run.json")
     (LastRunJson (if hasFailed then "failed" else "passed") failedTests))%js.

(** [xs.length > 0] *)
Definition nonempty {A} (xs : list A) : bool :=
  match xs with [] => false | _ => true end.

(** The [summary] object literal of [onEnd]. *)
Definition summary_of (res : ProcessedResults) (totalTimeDisplay : string)
    (slowest : list SlowTest) (info : BuildInfo) : TestSummary :=
  {| failures := r_failures res;
     testCount := r_testCount res;
     passedCount := r_passedCount res;
     skippedCount := r_skippedCount res;
     failedCount := r_testCount res - r_passedCount res - r_skippedCount res;
     totalTimeDisplay := totalTimeDisplay;
     averageTime := calculateAverageTime (r_passedDurations res);
     slowestTest := max_with_zero (r_passedDurations res);
     slowestTests := slowest;
     buildInfo := Some info |}.

(** [_generateFixSuggestions]: every step that can fail sits in a
    [try]/[catch] that only prints. *)
Definition _generateFixSuggestions (fs : list TestFailure) : M State unit :=
  log (FixSuggestionsLines fs).

Definition hasErrors_of (fs : list TestFailure) (nonTestErrors : list Error)
    (hasInterruptedTests : bool) : bool :=
  nonempty fs || nonempty nonTestErrors || hasInterruptedTests.

Definition onEnd (env : Env) : M State unit :=
  (startTime <- gets _startTime ;;
   let endTime := now env in
   let totalTimeSec := (endTime - startTime) / 1000 in
   let totalTimeDisplay := formatTime env totalTimeSec in
   res <- on_testRecords processTestResultsM ;;
   if (r_testCount res =? 0)%Z then
     log NoTestsFoundLine ;;;
     _exitWithError
   else
     let info := getBuildInfo env in
     cfg <- gets _config ;;
     slowest <- on_testRecords
                  (gets (fun m => findSlowestTests m (maxSlowTestsToShow cfg))) ;;
     let summary := summary_of res totalTimeDisplay slowest info in
     when (generateFix cfg && nonempty (r_failures res))
       (_generateFixSuggestions (r_failures res)) ;;;
     log (SummaryLines summary) ;;;
     nonTestErrors <- gets _nonTestErrors ;;
     when (nonempty nonTestErrors)
       (log (NonTestErrorsLines nonTestErrors (showStackTrace cfg))) ;;;
     when (nonempty (r_failures res)) (log (FailuresLines (r_failures res))) ;;;
     allTestCases <- on_testRecords (gets (fun m => map test (JsMap.values m))) ;;
     writeSummary env summary allTestCases ;;;
     saveLastRunStatus env (nonempty (r_failures res)) ;;;
     interruptedTests <- gets _hasInterruptedTests ;;
     when interruptedTests (log InterruptedLine) ;;;
     nonTestErrors' <- gets _nonTestErrors ;;
     interruptedTests' <- gets _hasInterruptedTests ;;
     let hasErrors :=
       hasErrors_of (r_failures res) nonTestErrors' interruptedTests' in
     if hasErrors then _exitWithError else _exitWithSuccess)%js.

(** *** Runs *)

(** The callbacks the runner makes between [onBegin] and [onEnd]. *)
Inductive Event : Type :=
| ErrorEvent (error : Error)
| TestEndEvent (test : TestCase) (result : TestResult).

Definition deliver (env : Env) (ev : Event) : M State unit :=
  match ev with
  | ErrorEvent e => onError e
  | TestEndEvent t r => onTestEnd env t r
  end.

Fixpoint deliver_all (env : Env) (evs : list Event) : M State unit :=
  match evs with
  | [] => ret tt
  | ev :: rest => bind (deliver env ev) (fun _ => deliver_all env rest)
  end.

(** A whole run: construction, the events in order, then [onEnd]. *)
Definition run (env : Env) (config : ReporterConfigInput) (evs : list Event)
  : Result unit * State :=
  bind (deliver_all env evs) (fun _ => onEnd env) (constructor config).

(* ===================================================================== *)
(** ** Notions used in the statements *)
(* ===================================================================== *)

(** Every record holds at least one attempt. *)
Definition wf_store (m : Store) : Prop :=
  Forall (fun kv => attempts (snd kv) <> []) m.

(** A state some sequence of callbacks leads to. *)
Definition reachable (env : Env) (st : State) : Prop :=
  exists config evs, snd (deliver_all env evs (constructor config)) = st.

(** The four dispositions of the outcome resolver. *)
Inductive Disposition : Type :=
| DPassed | DFailed | DSkipped | DErrored.

Definition Disposition_eqb (a b : Disposition) : bool :=
  match a, b with
  | DPassed, DPassed | DFailed, DFailed
  | DSkipped, DSkipped | DErrored, DErrored => true
  | _, _ => false
  end.

Definition disposition (r : TestRecord) : Disposition :=
  let o := outcome (test r) in
  if outcome_is o "expected" || outcome_is o "flaky" then DPassed
  else if outcome_is o "unexpected" then DFailed
  else if outcome_is o "skipped" then DSkipped
  else DErrored.

Definition count_disposition (d : Disposition) (rs : list TestRecord) : Z :=
  Z.of_nat (length (filter (fun r => Disposition_eqb (disposition r) d) rs)).

(** [b] took no longer than [a]. *)
Definition no_slower (a b : SlowTest) : Prop :=
  st_duration b <= st_duration a.

(** Durations never go up along the list. *)
Definition non_increasing (l : list SlowTest) : Prop :=
  StronglySorted no_slower l.

(** The entries of [l] whose duration is [d], in the order of [l]. *)
Definition ties (d : Q) (l : list SlowTest) : list SlowTest :=
  filter (fun x => Qeq_bool (st_duration x) d) l.

Definition is_prefix_of {A} (p l : list A) : Prop :=
  exists rest, l = p ++ rest.

(** What a record contributes to [passedDurations]. *)
Definition durations_of (r : TestRecord) : list Q :=
  match disposition r with
  | DPassed => map duration (filter is_passed (attempts r))
  | _ => []
  end.

(** What a record contributes to [failures]. *)
Definition failures_of (r : TestRecord) : list TestFailure :=
  match disposition r, JsArray.last_elem (attempts r) with
  | DFailed, Some fa => [unexpected_failure (test r) fa]
  | DErrored, Some fa => [unknown_outcome_failure (test r) fa]
  | _, _ => []
  end.

(** The locals after an iteration that counted a record as passed. *)
Definition counted_passed (acc : Locals) (r : TestRecord) : Locals :=
  {| l_passedCount := l_passedCount acc + 1;
     l_testCount := l_testCount acc + 1;
     l_skippedCount := l_skippedCount acc;
     l_failures := l_failures acc;
     l_passedDurations :=
       l_passedDurations acc ++ map duration (filter is_passed (attempts r)) |}.

Definition counted_skipped (acc : Locals) : Locals :=
  {| l_passedCount := l_passedCount acc;
     l_testCount := l_testCount acc + 1;
     l_skippedCount := l_skippedCount acc + 1;
     l_failures := l_failures acc;
     l_passedDurations := l_passedDurations acc |}.

Definition counted_failure (acc : Locals) (f : TestFailure) : Locals :=
  {| l_passedCount := l_passedCount acc;
     l_testCount := l_testCount acc + 1;
     l_skippedCount := l_skippedCount acc;
     l_failures := l_failures acc ++ [f];
     l_passedDurations := l_passedDurations acc |}.

Definition undefined_read : Exn :=
  TypeError "Cannot read properties of undefined".

(** [s'] differs from [s] at most in what was printed and written. *)
Definition same_reporter (s s' : State) : Prop :=
  outputDir s' = outputDir s /\
  _testRecords s' = _testRecords s /\
  _startTime s' = _startTime s /\
  _config s' = _config s /\
  _nonTestErrors s' = _nonTestErrors s /\
  _hasInterruptedTests s' = _hasInterruptedTests s /\
  _fileHandler s' = _fileHandler s /\
  exitCode s' = exitCode s.

(** An action that returns normally and only prints or writes files. *)
Definition reports_only (m : M State unit) : Prop :=
  forall s, exists s', m s = (Ok tt, s') /\ same_reporter s s'.

(** From [s], [m] returns normally, having set the exit code to [c] and
    otherwise only printed or written files. *)
Definition exits_with (c : Z) (m : M State unit) (s : State) : Prop :=
  exists s1, same_reporter s s1 /\ m s = (Ok tt, with_exitCode (Some c) s1).

(** The timeout test as the specification words it: one of the two
    substrings of classifier rule 2. *)
Definition timeout_indicating_spec (msg : string) : bool :=
  includes msg "Timeout" || includes msg "timed out".

(** The ids the specification expects in [failedTests]: those of the
    records result processing reports a failure for. *)
Definition failed_test_ids_spec (m : Store) : list string :=
  map (fun r => opt_or_else (testId (test r)) "")
      (filter (fun r => match disposition r with
                        | DFailed | DErrored => true
                        | _ => false
                        end)
              (JsMap.values m)).

(** The last [.last-run.json] written, if any. *)
Definition last_run_file (s : State) : option FileContent :=
  match find (fun p => match snd p with LastRunJson _ _ => true | _ => false end)
             (rev (files s)) with
  | Some p => Some (snd p)
  | None => None
  end.

(* ===================================================================== *)
(** ** Suites (onBegin) *)
(* ===================================================================== *)

(** A [Suite]: the tests declared in it and its child suites. *)
#[local] Unset Elimination Schemes.
Inductive Suite : Type :=
| mkSuite (tests : list TestCase) (suites : list Suite).
#[local] Set Elimination Schemes.

(** [let count = suite.tests.length;
     for (const childSuite of suite.suites) count += _countTests(childSuite)] *)
Fixpoint _countTests (suite : Suite) : Z :=
  match suite with
  | mkSuite tests suites =>
      fold_left (fun count childSuite => (count + _countTests childSuite)%Z)
                suites (Z.of_nat (length tests))
  end.

(* ===================================================================== *)
(** ** Notions used in the further properties *)
(* ===================================================================== *)

(** The tests of a suite and of all the suites below it. *)
Fixpoint tests_below (suite : Suite) : list TestCase :=
  match suite with
  | mkSuite tests suites => tests ++ flat_map tests_below suites
  end.

(** The titles of the attempts reported, in order. *)
Definition event_titles (evs : list Event) : list string :=
  flat_map (fun ev => match ev with
                      | TestEndEvent t _ => [title t]
                      | ErrorEvent _ => []
                      end) evs.

(** The errors reported through [onError], in order. *)
Definition event_errors (evs : list Event) : list Error :=
  flat_map (fun ev => match ev with
                      | ErrorEvent e => [e]
                      | TestEndEvent _ _ => []
                      end) evs.

(** Some reported attempt was interrupted. *)
Definition event_interrupted (evs : list Event) : bool :=
  existsb (fun ev => match ev with
                     | TestEndEvent _ r => Status_eqb (res_status r) interrupted
                     | ErrorEvent _ => false
                     end) evs.

(** The provisional failures of the attempts that ended [failed] or
    [timedOut], in order. *)
Definition event_failures (env : Env) (evs : list Event) : list TestFailure :=
  flat_map (fun ev => match ev with
                      | TestEndEvent t r =>
                          if Status_eqb (res_status r) failed
                             || Status_eqb (res_status r) timedOut
                          then [provisional_failure env t r] else []
                      | ErrorEvent _ => []
                      end) evs.

(** The number of attempts the store holds. *)
Definition total_attempts (m : Store) : nat :=
  list_sum (map (fun kv => length (attempts (snd kv))) m).

(** The record [onTestEnd] finds or creates for a test. *)
Definition record_for (env : Env) (test : TestCase) (m : Store) : TestRecord :=
  match JsMap.get (title test) m with
  | Some r => r
  | None => {| test := testCaseDetails_of env test; attempts := [] |}
  end.

(** A record as ingestion makes it: its metadata is that of some test
    and its key is the title. *)
Definition ingested (env : Env) (kv : string * TestRecord) : Prop :=
  exists t, test (snd kv) = testCaseDetails_of env t /\ fst kv = title t.

(** Two results put together: counts added, lists joined. *)
Definition merge_results (a b : ProcessedResults) : ProcessedResults :=
  {| r_passedCount := r_passedCount a + r_passedCount b;
     r_testCount := r_testCount a + r_testCount b;
     r_skippedCount := r_skippedCount a + r_skippedCount b;
     r_failedCount := r_failedCount a + r_failedCount b;
     r_failures := r_failures a ++ r_failures b;
     r_passedDurations := r_passedDurations a ++ r_passedDurations b |}.

(** No title is first reported with the outcome [flaky].  The runner
    derives [outcome()] from the attempts a test has made so far, and the
    first report of a title is a first attempt, which alone is never
    [flaky]; [seen] holds the titles reported before. *)
Fixpoint first_reports_not_flaky (seen : list string) (evs : list Event)
  : bool :=
  match evs with
  | [] => true
  | ErrorEvent _ :: rest => first_reports_not_flaky seen rest
  | TestEndEvent t _ :: rest =>
      (existsb (String.eqb (title t)) seen
       || match case_outcome t with OFlaky => false | _ => true end)
      && first_reports_not_flaky (title t :: seen) rest
  end.

Definition not_flaky (kv : string * TestRecord) : Prop :=
  outcome (test (snd kv)) <> Some "flaky".

(** From [s], [m] returns normally in a state that satisfies [Q]. *)
Definition ends_in (Q : State -> Prop) (m : M State unit) (s : State) : Prop :=
  exists s', m s = (Ok tt, s') /\ Q s'.

Definition is_unexpected (r : TestRecord) : bool :=
  outcome_is (outcome (test r)) "unexpected".

(** The records that need a last attempt to be processed have one. *)
Definition processable (r : TestRecord) : bool :=
  match disposition r with
  | DFailed | DErrored => nonempty (attempts r)
  | DPassed | DSkipped => true
  end.

(* ===================================================================== *)
(** ** Sample runs *)
(* ===================================================================== *)

Module Samples.

Definition env : Env :=
  {| FALLBACK_TEAM := None;
     now := 5000;
     formatTime := fun _ => "5.00s";
     getBuildInfo :=
       {| isPipeline := false; executionSystem := None;
          artifactsLink := None; buildLink := None; buildId := None;
          buildNumber := None; buildBranch := None; buildRepository := None;
          commitId := None; commitLink := None; testLink := None |};
     writable := fun _ => true |}.

Definition config : ReporterConfigInput :=
  {| in_slowTestThreshold := None; in_maxSlowTestsToShow := None;
     in_timeoutWarningThreshold := None; in_showStackTrace := None;
     in_outputDir := None; in_generateFix := None |}.

Definition case (name : string) (o : Outcome) : TestCase :=
  {| id := String.append "id-" name;
     title := name;
     parent_title := Some "suite";
     case_location := None;
     case_outcome := o;
     annotations := [] |}.

Definition result (st : Status) (ms : Z) (msgs : list string) (n : Z)
  : TestResult :=
  {| res_status := st;
     res_duration := inject_Z ms;
     res_errors :=
       map (fun m => {| e_message := Some m; e_stack := Some "at step" |}) msgs;
     retry := n |}.

Definition details (name o : string) : TestCaseDetails :=
  {| testId := Some (String.append "id-" name);
     testTitle := name;
     suiteTitle := "suite";
     testFile := None;
     location := None;
     tc_status := Some (outcomeToStatus o);
     outcome := Some o;
     owningTeam := Some "Unknown" |}.

Definition attempt (st : Status) (d : Q) (msgs : list string) : AttemptInfo :=
  {| status := st;
     duration := d;
     errors := map (fun m => {| message := m; stack := Some "at step" |}) msgs |}.

(** Failed on the first attempt, passed on the retry. *)
Definition flaky_record : TestRecord :=
  {| test := details "checkout" "flaky";
     attempts := [ attempt failed 2 ["Timeout of 5000ms exceeded"];
                   attempt passed (3 # 2) [] ] |}.

(** Outcome [unexpected]; the last attempt timed out with a network
    message. *)
Definition network_record : TestRecord :=
  {| test := details "api" "unexpected";
     attempts := [ attempt timedOut 30 ["Network status=500"] ] |}.

(** Outcome [unexpected]; the message says [Timeout] with a capital. *)
Definition capital_timeout_record : TestRecord :=
  {| test := details "wait" "unexpected";
     attempts := [ attempt failed 5 ["Timeout of 5000ms exceeded"] ] |}.

Definition passed_record (name : string) (d : Q) : TestRecord :=
  {| test := details name "expected"; attempts := [ attempt passed d [] ] |}.

Definition skipped_record : TestRecord :=
  {| test := details "later" "skipped"; attempts := [ attempt skipped 0 [] ] |}.

Definition store : Store :=
  [ ("login", passed_record "login" 1);
    ("api", network_record);
    ("later", skipped_record);
    ("checkout", flaky_record);
    ("search", passed_record "search" (3 # 2)) ].

(** One test, one attempt, passed in 1.23 s. *)
Definition passing_run : list Event :=
  [ TestEndEvent (case "login" OExpected) (result passed 1230 [] 0) ].

(** One test reported flaky: failed, then passed on the retry. *)
Definition flaky_run : list Event :=
  [ TestEndEvent (case "checkout" OFlaky)
      (result failed 2000 ["Timeout of 5000ms exceeded"] 0);
    TestEndEvent (case "checkout" OFlaky) (result passed 1500 [] 1) ].

(** A run with an error outside the tests, an interrupted attempt and a
    title shared by two tests. *)
Definition mixed_run : list Event :=
  [ TestEndEvent (case "login" OExpected) (result passed 1230 [] 0);
    ErrorEvent {| err_message := "global setup failed"; err_stack := None |};
    TestEndEvent (case "api" OUnexpected)
      (result timedOut 30000 ["Network status=500"] 0);
    TestEndEvent (case "login" OUnexpected) (result interrupted 10 [] 0) ].

Definition suite : Suite :=
  mkSuite [case "a" OExpected]
    [ mkSuite [case "b" OExpected; case "c" OSkipped] [];
      mkSuite [] [ mkSuite [case "d" OFlaky] [] ] ].

End Samples.

(* ===================================================================== *)
(** * Properties *)
(* ===================================================================== *)

(** ** Strings *)

Lemma prefix_iff (p s : string) :
  String.prefix p s = true <-> exists post, s = String.append p post.
Proof.
  revert s; induction p as [|c p IH]; intros s.
  - split; [intros _; now exists s | intros _; now destruct s].
  - destruct s as [|d s]; simpl.
    + split; [discriminate | intros [post H]; discriminate].
    + destruct (Ascii.ascii_dec c d) as [->|Hne].
      * rewrite IH. split; intros [post H]; exists post.
        -- now rewrite H.
        -- now inversion H.
      * split; [discriminate | intros [post H]; inversion H; congruence].
Qed.

(** [includes] is containment as a contiguous substring. *)
Lemma includes_iff (s needle : string) :
  includes s needle = true <->
  exists pre post, s = String.append pre (String.append needle post).
Proof.
  induction s as [|c s IH]; cbn [includes].
  - destruct (String.prefix needle "") eqn:E.
    + split; [intros _ | reflexivity].
      apply prefix_iff in E. destruct E as [post E]. now exists "", post.
    + split; [discriminate|].
      intros [pre [post H]].
      destruct pre; simpl in H; [|discriminate].
      assert (String.prefix needle "" = true) by (apply prefix_iff; eauto).
      congruence.
  - destruct (String.prefix needle (String c s)) eqn:E.
    + split; [intros _ | reflexivity].
      apply prefix_iff in E. destruct E as [post E]. now exists "", post.
    + rewrite IH. split.
      * intros [pre [post H]]. exists (String c pre), post. simpl. now rewrite H.
      * intros [pre [post H]]. destruct pre as [|c' pre]; simpl in H.
        -- assert (String.prefix needle (String c s) = true)
             by (apply prefix_iff; eauto).
           congruence.
        -- inversion H; subst. eauto.
Qed.

(** ** The classifier *)

Lemma categorizeError_classify (m : string) :
  categorizeError m = ClassifierSpec.classify m.
Proof.
  unfold categorizeError, ClassifierSpec.classify, ClassifierSpec.rules,
    ClassifierSpec.first_match, ClassifierSpec.matches.
  cbn [existsb ClassifierSpec.patterns ClassifierSpec.category].
  rewrite !orb_false_r, <- !orb_assoc.
  reflexivity.
Qed.

Lemma first_match_wins (m : string) (before after : list ClassifierSpec.Rule)
    (r : ClassifierSpec.Rule) :
  (forall r', In r' before -> ClassifierSpec.matches m r' = false) ->
  ClassifierSpec.matches m r = true ->
  ClassifierSpec.first_match (before ++ r :: after) m = ClassifierSpec.category r.
Proof.
  intros Hb Hr. induction before as [|b before IH]; simpl.
  - now rewrite Hr.
  - rewrite (Hb b (or_introl eq_refl)). apply IH.
    intros r' Hin. apply Hb. now right.
Qed.

Lemma first_match_none (m : string) (rs : list ClassifierSpec.Rule) :
  forallb (fun r => negb (ClassifierSpec.matches m r)) rs = true ->
  ClassifierSpec.first_match rs m = "Unknown".
Proof.
  induction rs as [|r rs IH]; simpl; [reflexivity|].
  intros H. apply andb_true_iff in H. destruct H as [H1 H2].
  apply negb_true_iff in H1. rewrite H1. now apply IH.
Qed.

(** C6. [categorizeError] is a function of the message alone that scans
    the ten ordered, case-sensitive substring rules and lets the first
    matching rule decide: it agrees with the rule table of the
    specification on every message; whichever rule is the first to match
    gives the category; ["selector timed out"], which matches rules 2 and
    3, is [Timeout/DelayedElement]; matching is case-sensitive; and a
    message no rule matches is [Unknown]. *)
Theorem categorizeError_ordered_rules :
  (forall m, categorizeError m = ClassifierSpec.classify m) /\
  (forall m m', m = m' -> categorizeError m = categorizeError m') /\
  (forall m before r after,
      ClassifierSpec.rules = before ++ r :: after ->
      (forall r', In r' before -> ClassifierSpec.matches m r' = false) ->
      ClassifierSpec.matches m r = true ->
      categorizeError m = ClassifierSpec.category r) /\
  (existsb (includes "selector timed out") ["Timeout"; "timed out"] = true /\
   existsb (includes "selector timed out") ["selector"; "locator"] = true /\
   categorizeError "selector timed out" = "Timeout/DelayedElement") /\
  (categorizeError "TIMED OUT" = "Unknown" /\
   categorizeError "timed out" = "Timeout/DelayedElement") /\
  (forall m,
      forallb (fun r => negb (ClassifierSpec.matches m r)) ClassifierSpec.rules
        = true ->
      categorizeError m = "Unknown").
Proof.
  split; [exact categorizeError_classify|].
  split; [intros m m' ->; reflexivity|].
  split.
  { intros m before r after Hsplit Hb Hr.
    rewrite categorizeError_classify. unfold ClassifierSpec.classify.
    rewrite Hsplit. now apply first_match_wins. }
  split; [repeat split; reflexivity|].
  split; [split; reflexivity|].
  intros m H. rewrite categorizeError_classify. now apply first_match_none.
Qed.

Lemma categorizeError_ordered_rules_witness :
  categorizeError "Timeout while waiting for selector" = "Timeout/DelayedElement"
  /\ categorizeError "something else broke" = "Unknown".
Proof.
  destruct categorizeError_ordered_rules as (_ & _ & Hfirst & _ & _ & Hnone).
  split.
  - apply (Hfirst "Timeout while waiting for selector"
             [ {| ClassifierSpec.patterns := ["No node found"; "not visible"];
                  ClassifierSpec.category := "ElementNotFound" |} ]
             {| ClassifierSpec.patterns := ["Timeout"; "timed out"];
                ClassifierSpec.category := "Timeout/DelayedElement" |}
             (tl (tl ClassifierSpec.rules))).
    + reflexivity.
    + intros r' [<-|[]]. reflexivity.
    + reflexivity.
  - apply (Hnone "something else broke"). reflexivity.
Defined.

(** ** Result processing *)

Lemma last_elem_nonempty {A} (xs : list A) :
  xs <> [] -> exists x, JsArray.last_elem xs = Some x.
Proof.
  intros H. unfold JsArray.last_elem.
  destruct (nth_error xs (length xs - 1)) as [x|] eqn:E; [eauto|].
  apply nth_error_None in E. destruct xs; [contradiction|simpl in E; lia].
Qed.

(** One iteration, by the disposition of the record. *)
Lemma processRecord_cases (acc : Locals) (r : TestRecord) (s : Store) :
  match disposition r with
  | DPassed => processRecord acc r s = (Ok (counted_passed acc r), s)
  | DSkipped => processRecord acc r s = (Ok (counted_skipped acc), s)
  | DFailed =>
      match JsArray.last_elem (attempts r) with
      | Some fa =>
          processRecord acc r s =
          (Ok (counted_failure acc (unexpected_failure (test r) fa)), s)
      | None => processRecord acc r s = (Throw undefined_read, s)
      end
  | DErrored =>
      match JsArray.last_elem (attempts r) with
      | Some fa =>
          processRecord acc r s =
          (Ok (counted_failure acc (unknown_outcome_failure (test r) fa)), s)
      | None => processRecord acc r s = (Throw undefined_read, s)
      end
  end.
Proof.
  unfold disposition, processRecord.
  destruct (outcome_is (outcome (test r)) "expected"
            || outcome_is (outcome (test r)) "flaky"); [reflexivity|].
  destruct (outcome_is (outcome (test r)) "unexpected").
  { destruct (JsArray.last_elem (attempts r)); reflexivity. }
  destruct (outcome_is (outcome (test r)) "skipped"); [reflexivity|].
  destruct (JsArray.last_elem (attempts r)); reflexivity.
Qed.

(** No iteration writes to the store. *)
Lemma processRecord_reads_only (acc : Locals) (r : TestRecord) (s : Store) :
  snd (processRecord acc r s) = s.
Proof.
  pose proof (processRecord_cases acc r s) as H.
  destruct (disposition r);
    try destruct (JsArray.last_elem (attempts r)); now rewrite H.
Qed.

Lemma for_of_reads_only (rs : list TestRecord) (acc : Locals) (s : Store) :
  snd (for_of processRecord rs acc s) = s.
Proof.
  revert acc; induction rs as [|r rs IH]; intros acc; simpl; [reflexivity|].
  unfold bind. pose proof (processRecord_reads_only acc r s) as H.
  destruct (processRecord acc r s) as [[a|e] s']; simpl in H; subst s'.
  - apply IH.
  - reflexivity.
Qed.

Lemma for_of_app {S A B} (body : B -> A -> M S B) (xs ys : list A) (acc : B)
    (s : S) :
  for_of body (xs ++ ys) acc s = bind (for_of body xs acc) (for_of body ys) s.
Proof.
  revert acc s; induction xs as [|x xs IH]; intros acc s; simpl.
  - reflexivity.
  - unfold bind. destruct (body acc x s) as [[a|e] s']; [|reflexivity].
    rewrite IH. reflexivity.
Qed.

Lemma count_disposition_cons (d : Disposition) (r : TestRecord)
    (rs : list TestRecord) :
  count_disposition d (r :: rs) =
  ((if Disposition_eqb (disposition r) d then 1 else 0)
   + count_disposition d rs)%Z.
Proof.
  unfold count_disposition. cbn [filter].
  destruct (Disposition_eqb (disposition r) d); cbn [length];
    rewrite ?Nat2Z.inj_succ; lia.
Qed.

(** Each record has one disposition, so the four counts add up. *)
Lemma count_disposition_partition (rs : list TestRecord) :
  (count_disposition DPassed rs + count_disposition DSkipped rs
   + count_disposition DFailed rs + count_disposition DErrored rs
   = Z.of_nat (length rs))%Z.
Proof.
  induction rs as [|r rs IH]; [reflexivity|].
  rewrite !count_disposition_cons. simpl length. rewrite Nat2Z.inj_succ.
  destruct (disposition r); cbn [Disposition_eqb]; lia.
Qed.

(** The loop in closed form. *)
Lemma for_of_processRecord_ok (rs : list TestRecord) (acc acc' : Locals)
    (s s' : Store) :
  for_of processRecord rs acc s = (Ok acc', s') ->
  s' = s /\
  l_testCount acc' = (l_testCount acc + Z.of_nat (length rs))%Z /\
  l_passedCount acc' = (l_passedCount acc + count_disposition DPassed rs)%Z /\
  l_skippedCount acc' = (l_skippedCount acc + count_disposition DSkipped rs)%Z /\
  l_failures acc' = l_failures acc ++ flat_map failures_of rs /\
  l_passedDurations acc' = l_passedDurations acc ++ flat_map durations_of rs /\
  Z.of_nat (length (flat_map failures_of rs)) =
    (count_disposition DFailed rs + count_disposition DErrored rs)%Z.
Proof.
  revert acc; induction rs as [|r rs IH]; intros acc H.
  - simpl in H. inversion H; subst. rewrite !app_nil_r.
    unfold count_disposition; simpl. repeat split; lia.
  - simpl in H. unfold bind in H.
    pose proof (processRecord_cases acc r s) as Hc.
    rewrite !count_disposition_cons. simpl length. rewrite Nat2Z.inj_succ.
    cbn [flat_map]. rewrite length_app.
    unfold durations_of at 1, failures_of at 1 3.
    destruct (disposition r); cbn [Disposition_eqb];
      try (destruct (JsArray.last_elem (attempts r)));
      rewrite Hc in H; try discriminate;
      apply IH in H;
      cbn [counted_passed counted_skipped counted_failure l_testCount
           l_passedCount l_skippedCount l_failures l_passedDurations] in H;
      destruct H as (-> & Ht & Hp & Hs & Hf & Hd & Hl);
      rewrite Ht, Hp, Hs, Hf, Hd, <- ?app_assoc; cbn [length app];
      repeat split; lia.
Qed.

(** With an attempt in every record no read of [finalAttempt] fails. *)
Lemma for_of_processRecord_total (rs : list TestRecord) (acc : Locals)
    (s : Store) :
  Forall (fun r => attempts r <> []) rs ->
  exists acc', for_of processRecord rs acc s = (Ok acc', s).
Proof.
  intros Hwf; revert acc; induction Hwf as [|r rs Hr _ IH]; intros acc; simpl.
  - eexists; reflexivity.
  - unfold bind. pose proof (processRecord_cases acc r s) as Hc.
    destruct (last_elem_nonempty _ Hr) as [fa Hfa]. rewrite Hfa in Hc.
    destruct (disposition r); rewrite Hc; apply IH.
Qed.

Lemma wf_store_values (m : Store) :
  wf_store m -> Forall (fun r => attempts r <> []) (JsMap.values m).
Proof.
  unfold wf_store, JsMap.values. intros H. now apply Forall_map.
Qed.

Lemma processTestResultsM_unfold (m : Store) :
  processTestResultsM m =
  match for_of processRecord (JsMap.values m) locals0 m with
  | (Ok acc, s') =>
      (Ok {| r_passedCount := l_passedCount acc;
             r_testCount := l_testCount acc;
             r_skippedCount := l_skippedCount acc;
             r_failedCount := Z.of_nat (length (l_failures acc));
             r_failures := l_failures acc;
             r_passedDurations := l_passedDurations acc |}, s')
  | (Throw e, s') => (Throw e, s')
  end.
Proof. reflexivity. Qed.

Lemma processTestResultsM_reads_only (m : Store) :
  snd (processTestResultsM m) = m.
Proof.
  rewrite processTestResultsM_unfold.
  pose proof (for_of_reads_only (JsMap.values m) locals0 m) as H.
  destruct (for_of processRecord (JsMap.values m) locals0 m) as [[a|e] s'];
    exact H.
Qed.

Lemma processTestResultsM_eq (m : Store) :
  processTestResultsM m = (processTestResults m, m).
Proof.
  unfold processTestResults.
  rewrite <- (processTestResultsM_reads_only m) at 3.
  now destruct (processTestResultsM m).
Qed.

(** The result in closed form. *)
Lemma processTestResults_ok (m : Store) (res : ProcessedResults) :
  processTestResults m = Ok res ->
  r_testCount res = Z.of_nat (length m) /\
  r_passedCount res = count_disposition DPassed (JsMap.values m) /\
  r_skippedCount res = count_disposition DSkipped (JsMap.values m) /\
  r_failures res = flat_map failures_of (JsMap.values m) /\
  r_passedDurations res = flat_map durations_of (JsMap.values m) /\
  r_failedCount res = Z.of_nat (length (r_failures res)) /\
  Z.of_nat (length (r_failures res)) =
    (count_disposition DFailed (JsMap.values m)
     + count_disposition DErrored (JsMap.values m))%Z.
Proof.
  unfold processTestResults. rewrite processTestResultsM_unfold.
  destruct (for_of processRecord (JsMap.values m) locals0 m) as [[acc|e] s']
    eqn:E; simpl; [|discriminate].
  intros H; inversion H; subst; clear H; simpl.
  apply for_of_processRecord_ok in E.
  destruct E as (_ & Ht & Hp & Hs & Hf & Hd & Hl).
  simpl in *. unfold JsMap.values in Ht. rewrite length_map in Ht.
  rewrite Hf. repeat split; assumption.
Qed.

Lemma processTestResults_total (m : Store) :
  wf_store m -> exists res, processTestResults m = Ok res.
Proof.
  intros Hwf. unfold processTestResults. rewrite processTestResultsM_unfold.
  destruct (for_of_processRecord_total (JsMap.values m) locals0 m
              (wf_store_values m Hwf)) as [acc ->].
  eexists; reflexivity.
Qed.

(** C3. A record whose captured outcome is [flaky] or [expected] is
    counted as passed: the iteration that meets it returns normally,
    adds one to [passedCount], leaves [failures] and [skippedCount] as
    they were, and appends to [passedDurations] the durations of exactly
    those of its attempts whose own status is [passed], in order;
    wherever the record sits in the store, the result of processing has
    no failure for it and holds those durations at its place. *)
Theorem flaky_or_expected_is_passed (r : TestRecord) :
  outcome (test r) = Some "flaky" \/ outcome (test r) = Some "expected" ->
  (forall acc s,
      exists acc',
        processRecord acc r s = (Ok acc', s) /\
        l_testCount acc' = (l_testCount acc + 1)%Z /\
        l_passedCount acc' = (l_passedCount acc + 1)%Z /\
        l_skippedCount acc' = l_skippedCount acc /\
        l_failures acc' = l_failures acc /\
        l_passedDurations acc' =
          l_passedDurations acc
            ++ map duration
                 (filter (fun a => Status_eqb (status a) passed) (attempts r)))
  /\
  (forall pre k post res,
      processTestResults (pre ++ (k, r) :: post) = Ok res ->
      r_passedCount res =
        (count_disposition DPassed (JsMap.values pre) + 1
         + count_disposition DPassed (JsMap.values post))%Z /\
      r_failures res =
        flat_map failures_of (JsMap.values pre)
          ++ flat_map failures_of (JsMap.values post) /\
      r_passedDurations res =
        flat_map durations_of (JsMap.values pre)
          ++ map duration
               (filter (fun a => Status_eqb (status a) passed) (attempts r))
          ++ flat_map durations_of (JsMap.values post)).
Proof.
  intros Ho.
  assert (Hd : disposition r = DPassed).
  { unfold disposition. destruct Ho as [-> | ->]; reflexivity. }
  split.
  - intros acc s. pose proof (processRecord_cases acc r s) as Hc.
    rewrite Hd in Hc. exists (counted_passed acc r).
    repeat split; assumption || reflexivity.
  - intros pre k post res Hres.
    apply processTestResults_ok in Hres.
    destruct Hres as (_ & Hp & _ & Hf & Hdur & _).
    unfold JsMap.values in *. rewrite map_app in Hp, Hf, Hdur.
    cbn [map snd] in Hp, Hf, Hdur.
    rewrite flat_map_app in Hf, Hdur. cbn [flat_map] in Hf, Hdur.
    unfold failures_of at 2 in Hf. unfold durations_of at 2 in Hdur.
    rewrite Hd in Hf, Hdur. cbn [app] in Hf.
    repeat split; try assumption.
    rewrite Hp. unfold count_disposition.
    rewrite filter_app, length_app. cbn [filter]. rewrite Hd.
    cbn [Disposition_eqb length]. lia.
Qed.

Lemma flaky_or_expected_is_passed_witness :
  exists acc',
    processRecord locals0 Samples.flaky_record [] = (Ok acc', []) /\
    l_passedCount acc' = 1%Z /\
    l_failures acc' = [] /\
    l_passedDurations acc' = [3 # 2].
Proof.
  destruct (flaky_or_expected_is_passed Samples.flaky_record
              (or_introl eq_refl)) as [Hstep _].
  destruct (Hstep locals0 []) as (acc' & Hrun & _ & Hp & _ & Hf & Hd).
  exists acc'. repeat split; assumption.
Defined.

(** C7. Result processing partitions the records.  With an attempt in
    every record it returns; whenever it returns, [testCount] is the
    number of records, [passedCount] the number of records resolved as
    passed, [skippedCount] the number resolved as skipped, and the
    failures list has one entry per record resolved as failed or
    errored; these classes exhaust the records without overlap.  The
    summary takes its counts and its failures from this result, so its
    [failedCount], computed as [testCount - passedCount - skippedCount],
    is the number of records resolved as failed or errored, which is the
    length of the failures list and the [failedCount] result processing
    returns. *)
Theorem processTestResults_partition (m : Store) :
  (wf_store m -> exists res, processTestResults m = Ok res) /\
  (forall res,
      processTestResults m = Ok res ->
      let rs := JsMap.values m in
      r_testCount res = Z.of_nat (length rs) /\
      r_passedCount res = count_disposition DPassed rs /\
      r_skippedCount res = count_disposition DSkipped rs /\
      Z.of_nat (length (r_failures res)) =
        (count_disposition DFailed rs + count_disposition DErrored rs)%Z /\
      (count_disposition DPassed rs + count_disposition DSkipped rs
       + (count_disposition DFailed rs + count_disposition DErrored rs)
       = Z.of_nat (length rs))%Z /\
      r_failedCount res = Z.of_nat (length (r_failures res)) /\
      forall display slowest info,
        let summary := summary_of res display slowest info in
        testCount summary = Z.of_nat (length rs) /\
        passedCount summary = count_disposition DPassed rs /\
        skippedCount summary = count_disposition DSkipped rs /\
        failures summary = r_failures res /\
        failedCount summary =
          (r_testCount res - r_passedCount res - r_skippedCount res)%Z /\
        failedCount summary =
          (testCount summary - passedCount summary - skippedCount summary)%Z /\
        failedCount summary =
          (count_disposition DFailed rs + count_disposition DErrored rs)%Z /\
        failedCount summary = Z.of_nat (length (r_failures res)) /\
        failedCount summary = r_failedCount res).
Proof.
  split; [apply processTestResults_total|].
  intros res Hres rs.
  apply processTestResults_ok in Hres.
  destruct Hres as (Ht & Hp & Hs & Hf & Hd & Hfc & Hl).
  pose proof (count_disposition_partition rs) as Hpart.
  assert (Hlen : length rs = length m) by apply length_map.
  fold rs in Hp, Hs, Hl.
  repeat split; try assumption; try lia;
    cbn [summary_of failedCount failures testCount passedCount skippedCount];
    lia.
Qed.

Lemma processTestResults_partition_witness :
  exists res,
    processTestResults Samples.store = Ok res /\
    r_testCount res = 5%Z /\ r_passedCount res = 3%Z /\
    r_skippedCount res = 1%Z /\ r_failedCount res = 1%Z /\
    length (r_failures res) = 1%nat /\
    failedCount (summary_of res "5.00s" [] (getBuildInfo Samples.env)) = 1%Z.
Proof.
  destruct (processTestResults_partition Samples.store) as [Htotal Hcounts].
  destruct Htotal as [res Hres].
  { repeat constructor; discriminate. }
  exists res. split; [exact Hres|].
  destruct (Hcounts res Hres) as (Ht & Hp & Hs & Hl & _ & Hfc & Hsum).
  destruct (Hsum "5.00s" [] (getBuildInfo Samples.env))
    as (_ & _ & _ & _ & _ & _ & _ & Hsf & _).
  assert (Hn : length (r_failures res) = 1%nat).
  { apply Nat2Z.inj. rewrite Hl. reflexivity. }
  rewrite Hsf, Hfc, Hn. repeat split; assumption.
Defined.

(** C9. Result processing is a fold that only reads the store: a call
    leaves the map of records as it found it, so a second call on it sees
    the same store and returns the same counts, the same failures list
    and the same passed durations (or raises the same exception). *)
Theorem processTestResults_reads_only (m : Store) :
  let (first, m1) := processTestResultsM m in
  let (second, m2) := processTestResultsM m1 in
  m1 = m /\ m2 = m /\ second = first.
Proof.
  rewrite processTestResultsM_eq. rewrite processTestResultsM_eq.
  repeat split.
Qed.

(** ** The failure built for an [unexpected] record *)

Lemma existsb_includes_iff (needle : string) (es : list TestError) :
  existsb (fun e => includes (message e) needle) es = true <->
  exists e pre post,
    In e es /\ message e = String.append pre (String.append needle post).
Proof.
  rewrite existsb_exists. split.
  - intros (e & Hin & Hinc). apply includes_iff in Hinc.
    destruct Hinc as (pre & post & Heq). now exists e, pre, post.
  - intros (e & pre & post & Hin & Heq). exists e. split; [assumption|].
    apply includes_iff. now exists pre, post.
Qed.

(** C4 with the substrings of rule 2 fails: the message
    ["Timeout of 5000ms exceeded"] contains ["Timeout"], and the failure
    built for it has [isTimeout = false]. *)
Lemma isTimeout_rule2_counterexample :
  let r := Samples.capital_timeout_record in
  let fa := Samples.attempt failed 5 ["Timeout of 5000ms exceeded"] in
  outcome (test r) = Some "unexpected" /\
  JsArray.last_elem (attempts r) = Some fa /\
  existsb (fun e => timeout_indicating_spec (message e)) (errors fa) = true /\
  exists res f,
    processTestResults [("wait", r)] = Ok res /\
    r_failures res = [f] /\
    isTimeout f = false.
Proof.
  repeat split.
  eexists. eexists. repeat split.
Qed.

(** C4, as the code has it.  For a record whose captured outcome is
    [unexpected], the iteration pushes one failure built from the last
    attempt, and its [isTimeout] is true exactly when some error message
    of that attempt contains the substring ["timeout"], compared
    case-sensitively.  The flag depends on the message texts only, not
    on the status of the attempt; the category is that of the first
    error's message.  For the last-attempt message ["Network status=500"]
    with status [timedOut], [isTimeout] is false and the category is
    [NetworkError]. *)
Theorem unexpected_isTimeout_from_message :
  (forall (r : TestRecord) (fa : AttemptInfo),
      outcome (test r) = Some "unexpected" ->
      JsArray.last_elem (attempts r) = Some fa ->
      exists f,
        (forall acc s,
            processRecord acc r s = (Ok (counted_failure acc f), s)) /\
        (isTimeout f = true <->
         exists e pre post,
           In e (errors fa) /\
           message e = String.append pre (String.append "timeout" post)) /\
        (forall st d,
            isTimeout
              (unexpected_failure (test r)
                 {| status := st; duration := d; errors := errors fa |})
            = isTimeout f) /\
        errorMessage f =
          match errors fa with [] => "" | e :: _ => message e end /\
        errorCategory f = categorizeError (errorMessage f))
  /\
  (exists res f,
      status (Samples.attempt timedOut 30 ["Network status=500"]) = timedOut /\
      processTestResults [("api", Samples.network_record)] = Ok res /\
      r_failures res = [f] /\
      errorMessage f = "Network status=500" /\
      isTimeout f = false /\
      errorCategory f = "NetworkError").
Proof.
  split.
  - intros r fa Ho Hlast. exists (unexpected_failure (test r) fa).
    split; [|split; [|split; [|split]]].
    + intros acc s. pose proof (processRecord_cases acc r s) as Hc.
      unfold disposition in Hc. rewrite Ho in Hc. cbn in Hc.
      now rewrite Hlast in Hc.
    + cbn [unexpected_failure isTimeout]. apply existsb_includes_iff.
    + reflexivity.
    + cbn [unexpected_failure errorMessage].
      destruct (errors fa) as [|e es]; [reflexivity|].
      cbn. now destruct (message e).
    + reflexivity.
  - eexists. eexists. repeat split.
Qed.

Lemma unexpected_isTimeout_from_message_witness :
  exists f,
    (forall acc s,
        processRecord acc Samples.network_record s =
        (Ok (counted_failure acc f), s)) /\
    errorMessage f = "Network status=500".
Proof.
  destruct unexpected_isTimeout_from_message as [Hall _].
  destruct (Hall Samples.network_record
              (Samples.attempt timedOut 30 ["Network status=500"])
              eq_refl eq_refl) as (f & Hrun & _ & _ & Hmsg & _).
  exists f. split; [exact Hrun | exact Hmsg].
Defined.

(** ** Attempt ingestion *)

Lemma get_set_same (k : string) (v : TestRecord) (m : Store) :
  JsMap.get k (JsMap.set k v m) = Some v.
Proof.
  induction m as [|[k' v'] m IH]; simpl.
  - now rewrite String.eqb_refl.
  - destruct (String.eqb k k') eqn:E; simpl.
    + now rewrite String.eqb_refl.
    + now rewrite E.
Qed.

Lemma set_Forall (P : string * TestRecord -> Prop) (k : string)
    (v : TestRecord) (m : Store) :
  Forall P m -> P (k, v) -> Forall P (JsMap.set k v m).
Proof.
  intros Hm Hv. induction Hm as [|[k' v'] m Hkv Hm IH]; simpl.
  - now constructor.
  - destruct (String.eqb k k'); constructor; assumption.
Qed.

(** What [onTestEnd] does to each field. *)
Lemma onTestEnd_effect (env : Env) (test : TestCase) (result : TestResult)
    (st : State) :
  exists st',
    onTestEnd env test result st = (Ok tt, st') /\
    (exists r,
        _testRecords st' =
        JsMap.set (title test) (push_attempt (attempt_of result) r)
          (if JsMap.has (title test) (_testRecords st)
           then _testRecords st
           else JsMap.set (title test)
                  {| test := testCaseDetails_of env test; attempts := [] |}
                  (_testRecords st))) /\
    fh_failures (_fileHandler st') =
      fh_failures (_fileHandler st)
        ++ (if Status_eqb (res_status result) failed
               || Status_eqb (res_status result) timedOut
            then [provisional_failure env test result] else []) /\
    _hasInterruptedTests st' =
      (if Status_eqb (res_status result) interrupted then true
       else _hasInterruptedTests st) /\
    _nonTestErrors st' = _nonTestErrors st /\
    _config st' = _config st /\
    exitCode st' = exitCode st /\
    files st' = files st.
Proof.
  destruct st as [od m t0 cfg errs intr fh con fl ec].
  unfold onTestEnd, bind, gets, modify, when, addFailure, _logTestOutcome, log.
  cbn [_testRecords _fileHandler _hasInterruptedTests _nonTestErrors _config
       exitCode files console outputDir _startTime
       with_testRecords with_fileHandler with_hasInterruptedTests
       with_console negb ret].
  destruct (JsMap.has (title test) m) eqn:Hhas;
    cbn [negb ret _testRecords with_testRecords].
  - unfold JsMap.has in Hhas.
    destruct (JsMap.get (title test) m) as [r|] eqn:Hget; [|discriminate].
    destruct (Status_eqb (res_status result) failed
              || Status_eqb (res_status result) timedOut);
      destruct (Status_eqb (res_status result) interrupted);
      cbn; eexists; (split; [reflexivity|]);
      rewrite ?app_nil_r; repeat split; eexists; reflexivity.
  - rewrite get_set_same.
    destruct (Status_eqb (res_status result) failed
              || Status_eqb (res_status result) timedOut);
      destruct (Status_eqb (res_status result) interrupted);
      cbn; eexists; (split; [reflexivity|]);
      rewrite ?app_nil_r; repeat split; eexists; reflexivity.
Qed.

(** C10. An attempt that ends [failed] or [timedOut] makes [onTestEnd]
    hand one failure record to the file handler at once.  The record is
    built from the test and this attempt only; its [isTimeout] is true
    exactly when the status of the attempt is [timedOut]; its message is
    the first error's message ([Unknown error] when there is none) and
    its stack the first error's stack (empty when there is none), the
    stacks of further errors not being joined to it. *)
Theorem onTestEnd_provisional_failure (env : Env) (test : TestCase)
    (result : TestResult) (st : State) :
  res_status result = failed \/ res_status result = timedOut ->
  exists st' f,
    onTestEnd env test result st = (Ok tt, st') /\
    fh_failures (_fileHandler st') = fh_failures (_fileHandler st) ++ [f] /\
    f = provisional_failure env test result /\
    (isTimeout f = true <-> res_status result = timedOut) /\
    errorMessage f =
      match res_errors result with
      | [] => "Unknown error"
      | e :: _ =>
          match e_message e with
          | None | Some EmptyString => "Unknown error"
          | Some m => m
          end
      end /\
    errorStack f =
      match res_errors result with
      | [] => ""
      | e :: _ => match e_stack e with None => "" | Some s => s end
      end /\
    errorCategory f = categorizeError (errorMessage f) /\
    f_duration f = res_duration result / 1000.
Proof.
  intros Hst.
  destruct (onTestEnd_effect env test result st)
    as (st' & Hrun & _ & Hfh & _).
  exists st', (provisional_failure env test result).
  split; [exact Hrun|].
  split.
  { rewrite Hfh. destruct Hst as [-> | ->]; reflexivity. }
  split; [reflexivity|].
  split.
  { cbn [provisional_failure isTimeout].
    destruct (res_status result); cbn; split; congruence. }
  split.
  { cbn [provisional_failure errorMessage]. unfold first_error_field.
    destruct (res_errors result) as [|e es]; [reflexivity|].
    destruct (e_message e) as [[|c m]|]; reflexivity. }
  split.
  { cbn [provisional_failure errorStack]. unfold first_error_field.
    destruct (res_errors result) as [|e es]; [reflexivity|].
    destruct (e_stack e) as [[|c m]|]; reflexivity. }
  split; reflexivity.
Qed.

Lemma onTestEnd_provisional_failure_witness :
  exists st' f,
    onTestEnd Samples.env (Samples.case "api" OUnexpected)
      (Samples.result timedOut 30000 ["Network status=500"; "second"] 0)
      (constructor Samples.config) = (Ok tt, st') /\
    fh_failures (_fileHandler st') = [f] /\
    isTimeout f = true /\
    errorMessage f = "Network status=500" /\
    errorStack f = "at step".
Proof.
  destruct (onTestEnd_provisional_failure Samples.env
              (Samples.case "api" OUnexpected)
              (Samples.result timedOut 30000 ["Network status=500"; "second"] 0)
              (constructor Samples.config) (or_intror eq_refl))
    as (st' & f & Hrun & Hfh & _ & Hto & Hmsg & Hstack & _).
  exists st', f. repeat split; try assumption.
  now apply Hto.
Defined.

(** ** The store invariant *)

Lemma set_set_Forall (P : string * TestRecord -> Prop) (k : string)
    (v v' : TestRecord) (m : Store) :
  Forall P m -> P (k, v') -> Forall P (JsMap.set k v' (JsMap.set k v m)).
Proof.
  intros Hm Hv. induction Hm as [|[k' v''] m Hkv Hm IH]; simpl.
  - rewrite String.eqb_refl. now constructor.
  - destruct (String.eqb k k') eqn:E; simpl.
    + rewrite String.eqb_refl. now constructor.
    + rewrite E. now constructor.
Qed.

Lemma onTestEnd_wf_store (env : Env) (test : TestCase) (result : TestResult)
    (st : State) :
  wf_store (_testRecords st) ->
  wf_store (_testRecords (snd (onTestEnd env test result st))).
Proof.
  intros Hwf.
  destruct (onTestEnd_effect env test result st)
    as (st' & Hrun & (r & Hstore) & _).
  rewrite Hrun. cbn [snd]. rewrite Hstore.
  assert (Hpush : attempts (push_attempt (attempt_of result) r) <> []).
  { cbn. now destruct (attempts r). }
  destruct (JsMap.has (title test) (_testRecords st)).
  - now apply set_Forall.
  - now apply set_set_Forall.
Qed.

Lemma deliver_ok (env : Env) (ev : Event) (st : State) :
  fst (deliver env ev st) = Ok tt.
Proof.
  destruct ev as [e|t r]; [reflexivity|].
  destruct (onTestEnd_effect env t r st) as (st' & Hrun & _).
  cbn [deliver]. now rewrite Hrun.
Qed.

Lemma deliver_wf_store (env : Env) (ev : Event) (st : State) :
  wf_store (_testRecords st) ->
  wf_store (_testRecords (snd (deliver env ev st))).
Proof.
  destruct ev as [e|t r]; [now destruct st|apply onTestEnd_wf_store].
Qed.

Lemma deliver_all_wf_store (env : Env) (evs : list Event) (st : State) :
  wf_store (_testRecords st) ->
  fst (deliver_all env evs st) = Ok tt /\
  wf_store (_testRecords (snd (deliver_all env evs st))).
Proof.
  revert st; induction evs as [|ev evs IH]; intros st Hwf.
  - split; [reflexivity|exact Hwf].
  - cbn [deliver_all]. unfold bind.
    pose proof (deliver_ok env ev st) as Hok.
    pose proof (deliver_wf_store env ev st Hwf) as Hwf'.
    destruct (deliver env ev st) as [[[]|e] st']; cbn in Hok; [|discriminate].
    now apply IH.
Qed.

(** Every record of a reachable state holds an attempt. *)
Lemma reachable_wf_store (env : Env) (st : State) :
  reachable env st -> wf_store (_testRecords st).
Proof.
  intros (config & evs & <-).
  apply deliver_all_wf_store. constructor.
Qed.

(** ** The end of the run *)

Lemma with_testRecords_same (s : State) :
  with_testRecords (_testRecords s) s = s.
Proof. now destruct s. Qed.

Lemma same_reporter_refl (s : State) : same_reporter s s.
Proof. repeat split. Qed.

Lemma same_reporter_trans (s1 s2 s3 : State) :
  same_reporter s1 s2 -> same_reporter s2 s3 -> same_reporter s1 s3.
Proof.
  unfold same_reporter. intros (A1 & A2 & A3 & A4 & A5 & A6 & A7 & A8)
                               (B1 & B2 & B3 & B4 & B5 & B6 & B7 & B8).
  repeat split; congruence.
Qed.

Lemma reports_only_log (l : ConsoleLine) : reports_only (log l).
Proof. intros s. eexists. split; [reflexivity|]. repeat split. Qed.

Lemma reports_only_ret : reports_only (ret tt).
Proof. intros s. exists s. split; [reflexivity|apply same_reporter_refl]. Qed.

Lemma reports_only_when (b : bool) (m : M State unit) :
  reports_only m -> reports_only (when b m).
Proof. destruct b; [trivial|intros _; apply reports_only_ret]. Qed.

Lemma reports_only_try_write (env : Env) (path : string) (c : FileContent) :
  reports_only (try_write env path c).
Proof.
  unfold try_write. destruct (writable env path).
  - intros s. eexists. split; [reflexivity|]. repeat split.
  - apply reports_only_log.
Qed.

Lemma reports_only_seq (m k : M State unit) :
  reports_only m -> reports_only k -> reports_only (bind m (fun _ => k)).
Proof.
  intros Hm Hk s. destruct (Hm s) as (s1 & E1 & R1).
  destruct (Hk s1) as (s2 & E2 & R2).
  exists s2. unfold bind. rewrite E1. split; [exact E2|].
  eapply same_reporter_trans; eassumption.
Qed.

Lemma reports_only_gets {A} (f : State -> A) (k : A -> M State unit) :
  (forall a, reports_only (k a)) -> reports_only (bind (gets f) k).
Proof. intros Hk s. apply (Hk (f s) s). Qed.

Lemma reports_only_on_gets {A} (f : Store -> A) (k : A -> M State unit) :
  (forall a, reports_only (k a)) ->
  reports_only (bind (on_testRecords (gets f)) k).
Proof.
  intros Hk s. unfold bind, on_testRecords, gets.
  rewrite with_testRecords_same. apply Hk.
Qed.

Lemma reports_only_writeSummary (env : Env) (summary : TestSummary)
    (tests : list TestCaseDetails) :
  reports_only (writeSummary env summary tests).
Proof.
  unfold writeSummary. apply reports_only_gets. intros fh.
  apply reports_only_seq; apply reports_only_try_write.
Qed.

Lemma reports_only_saveLastRunStatus (env : Env) (hasFailed : bool) :
  reports_only (saveLastRunStatus env hasFailed).
Proof.
  unfold saveLastRunStatus. apply reports_only_on_gets. intros records.
  apply reports_only_gets. intros dir. apply reports_only_try_write.
Qed.

Lemma reports_only_generateFixSuggestions (fs : list TestFailure) :
  reports_only (_generateFixSuggestions fs).
Proof. apply reports_only_log. Qed.

Create HintDb reports.

#[local] Hint Resolve reports_only_log reports_only_ret reports_only_when
  reports_only_try_write reports_only_writeSummary
  reports_only_saveLastRunStatus reports_only_generateFixSuggestions : reports.

Lemma exits_with_seq (c : Z) (m k : M State unit) (s : State) :
  reports_only m ->
  (forall s', same_reporter s s' -> exits_with c k s') ->
  exits_with c (bind m (fun _ => k)) s.
Proof.
  intros Hm Hk. destruct (Hm s) as (s1 & E1 & R1).
  destruct (Hk s1 R1) as (s2 & R2 & E2).
  exists s2. unfold bind. rewrite E1.
  split; [eapply same_reporter_trans; eassumption | exact E2].
Qed.

Lemma exits_with_exit (s : State) :
  exits_with 1 _exitWithError s /\ exits_with 0 _exitWithSuccess s.
Proof.
  split; exists s; (split; [apply same_reporter_refl | reflexivity]).
Qed.

(** [onEnd] when result processing returns and counted a test. *)
Lemma onEnd_with_tests (env : Env) (st : State) (res : ProcessedResults) :
  processTestResults (_testRecords st) = Ok res ->
  r_testCount res <> 0%Z ->
  exits_with
    (if hasErrors_of (r_failures res) (_nonTestErrors st)
          (_hasInterruptedTests st)
     then 1 else 0)%Z
    (onEnd env) st.
Proof.
  intros Hres Hcount.
  assert (Hexit :
    forall s, same_reporter st s ->
      exits_with
        (if hasErrors_of (r_failures res) (_nonTestErrors st)
              (_hasInterruptedTests st) then 1 else 0)%Z
        (bind (gets _nonTestErrors) (fun errs =>
           bind (gets _hasInterruptedTests) (fun intr =>
             if hasErrors_of (r_failures res) errs intr
             then _exitWithError else _exitWithSuccess))) s).
  { intros s (_ & _ & _ & _ & He & Hi & _).
    unfold exits_with, bind, gets. rewrite He, Hi.
    destruct (hasErrors_of _ _ _); apply exits_with_exit. }
  unfold exits_with, onEnd. unfold bind at 1, gets at 1.
  unfold bind at 1, on_testRecords at 1.
  rewrite processTestResultsM_eq, Hres, with_testRecords_same.
  apply Z.eqb_neq in Hcount. rewrite Hcount.
  unfold bind at 1, gets at 1.
  unfold bind at 1, on_testRecords at 1, gets at 1.
  rewrite with_testRecords_same.
  apply exits_with_seq; [auto with reports|]. intros s1 R1.
  apply exits_with_seq; [auto with reports|]. intros s2 R2.
  unfold exits_with, bind at 1, gets at 1.
  apply exits_with_seq; [auto with reports|]. intros s3 R3.
  apply exits_with_seq; [auto with reports|]. intros s4 R4.
  unfold exits_with, bind at 1, on_testRecords at 1, gets at 1.
  rewrite with_testRecords_same.
  apply exits_with_seq; [auto with reports|]. intros s5 R5.
  apply exits_with_seq; [auto with reports|]. intros s6 R6.
  unfold exits_with, bind at 1, gets at 1.
  assert (R16 : same_reporter st s6).
  { eapply same_reporter_trans; [exact R1|].
    eapply same_reporter_trans; [exact R2|].
    eapply same_reporter_trans; [exact R3|].
    eapply same_reporter_trans; [exact R4|].
    eapply same_reporter_trans; [exact R5|exact R6]. }
  assert (Hi : _hasInterruptedTests s6 = _hasInterruptedTests st)
    by apply R16.
  rewrite Hi.
  apply exits_with_seq; [auto with reports|]. intros s7 R7.
  apply Hexit.
  eapply same_reporter_trans; [exact R16|exact R7].
Qed.

(** C1. At the end of a run that recorded at least one test, [onEnd]
    returns normally and sets the exit code from
    [hasErrors = failures.length > 0 || nonTestErrors.length > 0
                 || hasInterruptedTests]:
    the code is 1 when [hasErrors] holds and 0 when it does not. *)
Theorem onEnd_exit_code (env : Env) (st : State) :
  reachable env st ->
  _testRecords st <> [] ->
  exists res st',
    processTestResults (_testRecords st) = Ok res /\
    onEnd env st = (Ok tt, st') /\
    let hasErrors :=
      hasErrors_of (r_failures res) (_nonTestErrors st)
        (_hasInterruptedTests st) in
    (hasErrors = true <->
     (0 < length (r_failures res))%nat \/
     (0 < length (_nonTestErrors st))%nat \/
     _hasInterruptedTests st = true) /\
    exitCode st' = Some (if hasErrors then 1 else 0)%Z /\
    (exitCode st' = Some 0%Z <-> hasErrors = false) /\
    (exitCode st' = Some 1%Z <-> hasErrors = true).
Proof.
  intros Hreach Hne.
  pose proof (reachable_wf_store env st Hreach) as Hwf.
  destruct (processTestResults_total _ Hwf) as [res Hres].
  assert (Hcount : r_testCount res <> 0%Z).
  { destruct (processTestResults_ok _ _ Hres) as (Ht & _). rewrite Ht.
    destruct (_testRecords st); [contradiction|simpl; lia]. }
  destruct (onEnd_with_tests env st res Hres Hcount) as (s1 & R1 & Hrun).
  exists res, (with_exitCode
                 (Some (if hasErrors_of (r_failures res) (_nonTestErrors st)
                              (_hasInterruptedTests st) then 1 else 0)%Z) s1).
  split; [exact Hres|]. split; [exact Hrun|].
  cbn zeta. split.
  { unfold hasErrors_of, nonempty.
    destruct (r_failures res), (_nonTestErrors st), (_hasInterruptedTests st);
      cbn; intuition (try discriminate; try lia). }
  cbn [exitCode with_exitCode].
  destruct (hasErrors_of _ _ _); repeat split; congruence.
Qed.

Lemma onEnd_exit_code_witness :
  let st :=
    snd (deliver_all Samples.env Samples.passing_run
           (constructor Samples.config)) in
  exists st', onEnd Samples.env st = (Ok tt, st') /\ exitCode st' = Some 0%Z.
Proof.
  intros st.
  assert (Hreach : reachable Samples.env st)
    by (exists Samples.config, Samples.passing_run; reflexivity).
  assert (Hne : _testRecords st <> []) by discriminate.
  destruct (onEnd_exit_code Samples.env st Hreach Hne)
    as (res & st' & Hres & Hrun & _ & Hcode & _).
  exists st'. split; [exact Hrun|].
  rewrite Hcode. vm_compute in Hres. inversion Hres. reflexivity.
Defined.

(** C2. With no test recorded, [onEnd] prints the no-tests-found line,
    sets the exit code to 1 and does nothing else: it builds no summary,
    prints none and writes no file, whatever the errors recorded, the
    interruption flag and the configuration are. *)
Theorem onEnd_no_tests (env : Env) (st : State) :
  _testRecords st = [] ->
  exists st',
    onEnd env st = (Ok tt, st') /\
    st' = with_exitCode (Some 1%Z)
            (with_console (console st ++ [NoTestsFoundLine]) st) /\
    console st' = console st ++ [NoTestsFoundLine] /\
    files st' = files st /\
    exitCode st' = Some 1%Z.
Proof.
  intros Hempty. eexists. split; [|repeat split].
  destruct st as [od m t0 cfg errs intr fh con fl ec].
  cbn in Hempty. subst m. reflexivity.
Qed.

Lemma onEnd_no_tests_witness :
  exists st',
    onEnd Samples.env
      (with_hasInterruptedTests false (constructor Samples.config))
      = (Ok tt, st') /\
    console st' = [NoTestsFoundLine] /\ files st' = [] /\
    exitCode st' = Some 1%Z.
Proof.
  destruct (onEnd_no_tests Samples.env
              (with_hasInterruptedTests false (constructor Samples.config))
              eq_refl) as (st' & Hrun & _ & Hcon & Hfiles & Hcode).
  exists st'. repeat split; assumption.
Defined.

(** [onEnd] never changes the store, however it ends. *)
Lemma onEnd_keeps_store (env : Env) (st : State) :
  _testRecords (snd (onEnd env st)) = _testRecords st.
Proof.
  destruct (processTestResults (_testRecords st)) as [res|e] eqn:Hres.
  - destruct (Z.eq_dec (r_testCount res) 0) as [Hz|Hnz].
    + unfold onEnd. unfold bind at 1, gets at 1.
      unfold bind at 1, on_testRecords at 1.
      rewrite processTestResultsM_eq, Hres, with_testRecords_same.
      rewrite Hz. now destruct st.
    + destruct (onEnd_with_tests env st res Hres Hnz) as (s1 & R1 & ->).
      cbn [snd]. replace (_testRecords (with_exitCode _ s1))
        with (_testRecords s1) by now destruct s1.
      apply R1.
  - unfold onEnd. unfold bind at 1, gets at 1.
    unfold bind at 1, on_testRecords at 1.
    now rewrite processTestResultsM_eq, Hres, with_testRecords_same.
Qed.

(** ** The last-run record *)

(** For a record made by ingestion, the filter of [saveLastRunStatus]
    selects the outcomes [unexpected] and [flaky]. *)
Lemma status_is_failed_ingested (env : Env) (test : TestCase)
    (l : list AttemptInfo) :
  status_is_failed {| test := testCaseDetails_of env test; attempts := l |} =
  match case_outcome test with
  | OUnexpected | OFlaky => true
  | OExpected | OSkipped => false
  end.
Proof. now destruct test as [? ? ? ? [] ?]. Qed.

(** The record [saveLastRunStatus] writes. *)
Lemma saveLastRunStatus_writes (env : Env) (hasFailed : bool) (st : State) :
  writable env (path_join (outputDir st) ".last-run.json") = true ->
  saveLastRunStatus env hasFailed st =
  (Ok tt,
   with_files
     (files st
        ++ [(path_join (outputDir st) ".last-run.json",
             LastRunJson (if hasFailed then "failed" else "passed")
               (map (fun r => opt_or_else (testId (test r)) "")
                    (filter status_is_failed
                            (JsMap.values (_testRecords st)))))])
     st).
Proof.
  intros Hw. unfold saveLastRunStatus.
  unfold bind at 1, on_testRecords at 1, gets at 1.
  rewrite with_testRecords_same.
  unfold bind, gets, try_write. now rewrite Hw.
Qed.

(** Were a title first reported with the outcome [flaky] (failed, then
    passed on the retry), result processing would count the test as
    passed and report no failure, the exit code would be 0 and the
    status written [passed], yet [failedTests] would name the test. *)
Example last_run_lists_flaky_test :
  exists st res,
    run Samples.env Samples.config Samples.flaky_run = (Ok tt, st) /\
    processTestResults (_testRecords st) = Ok res /\
    r_passedCount res = 1%Z /\
    r_failures res = [] /\
    failed_test_ids_spec (_testRecords st) = [] /\
    exitCode st = Some 0%Z /\
    last_run_file st = Some (LastRunJson "passed" ["id-checkout"]).
Proof.
  eexists. eexists.
  repeat (split; [vm_compute; reflexivity|]).
  vm_compute; reflexivity.
Qed.

(** ** The slowest tests *)

Lemma by_duration_desc_le (x y : SlowTest) :
  Qle_bool (by_duration_desc x y) 0 = true <-> no_slower x y.
Proof.
  unfold by_duration_desc, no_slower. rewrite Qle_bool_iff. split; intros H; lra.
Qed.

Lemma insert_perm (x : SlowTest) (l : list SlowTest) :
  Permutation (JsArray.insert by_duration_desc x l) (x :: l).
Proof.
  induction l as [|y l IH]; simpl; [reflexivity|].
  destruct (Qle_bool (by_duration_desc x y) 0); [reflexivity|].
  rewrite IH. apply perm_swap.
Qed.

Lemma sort_perm (l : list SlowTest) :
  Permutation (JsArray.sort by_duration_desc l) l.
Proof.
  induction l as [|x l IH]; simpl; [reflexivity|].
  rewrite insert_perm. now constructor.
Qed.

Lemma insert_sorted (x : SlowTest) (l : list SlowTest) :
  StronglySorted no_slower l ->
  StronglySorted no_slower (JsArray.insert by_duration_desc x l).
Proof.
  induction 1 as [|y l Hl IH Hy]; simpl.
  - repeat constructor.
  - destruct (Qle_bool (by_duration_desc x y) 0) eqn:E.
    + apply by_duration_desc_le in E.
      constructor; [now constructor|].
      constructor; [exact E|].
      eapply Forall_impl; [|exact Hy].
      unfold no_slower in *. intros z Hz. lra.
    + assert (Hyx : no_slower y x).
      { unfold no_slower. destruct (Qlt_le_dec (st_duration x) (st_duration y))
          as [Hlt|Hle]; [lra|].
        apply by_duration_desc_le in Hle. congruence. }
      constructor; [exact IH|].
      eapply Permutation_Forall; [symmetry; apply insert_perm|].
      now constructor.
Qed.

Lemma sort_sorted (l : list SlowTest) :
  StronglySorted no_slower (JsArray.sort by_duration_desc l).
Proof.
  induction l as [|x l IH]; simpl; [constructor|now apply insert_sorted].
Qed.

(** Inserting does not reorder the entries of one duration. *)
Lemma ties_insert (d : Q) (x : SlowTest) (l : list SlowTest) :
  ties d (JsArray.insert by_duration_desc x l) = ties d (x :: l).
Proof.
  induction l as [|y l IH]; simpl; [reflexivity|].
  destruct (Qle_bool (by_duration_desc x y) 0) eqn:E; [reflexivity|].
  unfold ties in *. cbn [filter] in *. rewrite IH.
  destruct (Qeq_bool (st_duration x) d) eqn:Ex,
           (Qeq_bool (st_duration y) d) eqn:Ey; try reflexivity.
  exfalso. apply Qeq_bool_iff in Ex, Ey.
  assert (Hle : no_slower x y) by (unfold no_slower; lra).
  apply by_duration_desc_le in Hle. congruence.
Qed.

(** The sort is stable. *)
Lemma ties_sort (d : Q) (l : list SlowTest) :
  ties d (JsArray.sort by_duration_desc l) = ties d l.
Proof.
  induction l as [|x l IH]; simpl; [reflexivity|].
  rewrite ties_insert. unfold ties in *. cbn [filter]. now rewrite IH.
Qed.

Lemma firstn_sorted (n : nat) (l : list SlowTest) :
  StronglySorted no_slower l -> StronglySorted no_slower (firstn n l).
Proof.
  intros H; revert n; induction H as [|y l Hl IH Hy]; intros [|n]; simpl;
    try constructor; auto.
  eapply incl_Forall; [|exact Hy].
  intros z Hz. rewrite <- (firstn_skipn n l).
  apply in_or_app. now left.
Qed.

Lemma slice0_count {A} (xs : list A) (K : nat) :
  JsArray.slice0 xs (Z.of_nat K) = firstn K xs.
Proof.
  unfold JsArray.slice0.
  destruct (Z.ltb_spec (Z.of_nat K) 0) as [Hneg|_]; [lia|].
  destruct (Nat.le_ge_cases K (length xs)) as [Hle|Hge].
  - rewrite Z.min_l by lia. now rewrite Nat2Z.id.
  - rewrite Z.min_r by lia. rewrite Nat2Z.id.
    now rewrite !firstn_all2 by lia.
Qed.

Lemma sorted_app_inv (l1 l2 : list SlowTest) :
  non_increasing (l1 ++ l2) ->
  forall x y, In x l1 -> In y l2 -> st_duration y <= st_duration x.
Proof.
  unfold non_increasing.
  induction l1 as [|z l1 IH]; simpl; intros H x y Hx Hy; [contradiction|].
  inversion H as [|? ? Hs Hall]; subst. destruct Hx as [->|Hx].
  - rewrite Forall_forall in Hall. apply Hall, in_or_app. now right.
  - now apply IH.
Qed.

(** Two non-increasing lists with the same entries in the same order at
    every duration are the same list. *)
Lemma sorted_ties_unique (l1 l2 : list SlowTest) :
  non_increasing l1 -> non_increasing l2 ->
  (forall d, ties d l1 = ties d l2) ->
  l1 = l2.
Proof.
  unfold non_increasing, ties.
  intros H1; revert l2; induction H1 as [|x t Ht IH Hx]; intros l2 H2 Hties.
  - destruct l2 as [|y u]; [reflexivity|].
    specialize (Hties (st_duration y)). cbn [filter] in Hties.
    rewrite (Qeq_bool_refl (st_duration y)) in Hties. discriminate.
  - destruct l2 as [|y u].
    { specialize (Hties (st_duration x)). cbn [filter] in Hties.
      rewrite (Qeq_bool_refl (st_duration x)) in Hties. discriminate. }
    inversion H2 as [|? ? Hu Hy]; subst.
    rewrite Forall_forall in Hx, Hy.
    assert (Hxy : st_duration x == st_duration y).
    { apply Qle_antisym.
      - pose proof (Hties (st_duration x)) as E. cbn [filter] in E.
        rewrite (Qeq_bool_refl (st_duration x)) in E.
        assert (Hin : In x (if Qeq_bool (st_duration y) (st_duration x)
                            then y :: filter (fun z => Qeq_bool (st_duration z)
                                                        (st_duration x)) u
                            else filter (fun z => Qeq_bool (st_duration z)
                                                   (st_duration x)) u))
          by (rewrite <- E; now left).
        destruct (Qeq_bool (st_duration y) (st_duration x)) eqn:Eyx.
        + apply Qeq_bool_iff in Eyx. rewrite Eyx. apply Qle_refl.
        + apply filter_In in Hin. apply Hy, Hin.
      - pose proof (Hties (st_duration y)) as E. cbn [filter] in E.
        rewrite (Qeq_bool_refl (st_duration y)) in E.
        assert (Hin : In y (if Qeq_bool (st_duration x) (st_duration y)
                            then x :: filter (fun z => Qeq_bool (st_duration z)
                                                        (st_duration y)) t
                            else filter (fun z => Qeq_bool (st_duration z)
                                                   (st_duration y)) t))
          by (rewrite E; now left).
        destruct (Qeq_bool (st_duration x) (st_duration y)) eqn:Exy.
        + apply Qeq_bool_iff in Exy. rewrite Exy. apply Qle_refl.
        + apply filter_In in Hin. apply Hx, Hin. }
    assert (Hsame : forall d, Qeq_bool (st_duration y) d
                              = Qeq_bool (st_duration x) d).
    { intros d. destruct (Qeq_bool (st_duration x) d) eqn:Ex.
      - apply Qeq_bool_iff. apply Qeq_bool_iff in Ex. now rewrite <- Hxy.
      - destruct (Qeq_bool (st_duration y) d) eqn:Ey; [|reflexivity].
        apply Qeq_bool_iff in Ey. rewrite <- Hxy in Ey.
        apply Qeq_bool_iff in Ey. congruence. }
    assert (Hhead : x = y).
    { specialize (Hties (st_duration x)). cbn [filter] in Hties.
      rewrite Hsame, (Qeq_bool_refl (st_duration x)) in Hties.
      now inversion Hties. }
    subst y. f_equal. apply IH; [assumption|].
    intros d. specialize (Hties d). cbn [filter] in Hties.
    destruct (Qeq_bool (st_duration x) d); [now inversion Hties|assumption].
Qed.

(** [JsArray.sort] computes the stable sort: any arrangement of [l] that
    is non-increasing and keeps the entries of each duration in their
    order in [l] is the one it returns. *)
Lemma stable_sort_unique (l l' : list SlowTest) :
  non_increasing l' ->
  (forall d, ties d l' = ties d l) ->
  l' = JsArray.sort by_duration_desc l.
Proof.
  intros Hs Ht. apply sorted_ties_unique; [assumption|apply sort_sorted|].
  intros d. now rewrite Ht, ties_sort.
Qed.

Lemma passed_attempts_In (rs : list TestRecord) (x : SlowTest) :
  In x (passed_attempts rs) <->
  exists r a,
    In r rs /\ In a (attempts r) /\ status a = passed /\
    x = {| st_testTitle := testTitle (test r); st_duration := duration a |}.
Proof.
  unfold passed_attempts. rewrite in_flat_map. split.
  - intros (r & Hr & Hx). apply in_map_iff in Hx.
    destruct Hx as (a & <- & Ha). apply filter_In in Ha.
    destruct Ha as [Ha Hp]. exists r, a. repeat split; try assumption.
    unfold is_passed in Hp. now destruct (status a).
  - intros (r & a & Hr & Ha & Hp & ->). exists r. split; [assumption|].
    apply in_map_iff. exists a. split; [reflexivity|].
    apply filter_In. split; [assumption|]. unfold is_passed. now rewrite Hp.
Qed.

Lemma slice0_nonneg {A} (xs : list A) (K : Z) :
  (0 <= K)%Z -> JsArray.slice0 xs K = firstn (Z.to_nat K) xs.
Proof.
  intros HK. rewrite <- (Z2Nat.id K HK) at 1. apply slice0_count.
Qed.

(** C8 fails for a negative limit: with limit -1 the ranking of a pool
    of three keeps two entries, more than the limit. *)
Lemma findSlowestTests_limit_counterexample :
  length (passed_attempts (JsMap.values Samples.store)) = 3%nat /\
  length (findSlowestTests Samples.store (-1)) = 2%nat /\
  ~ (Z.of_nat (length (findSlowestTests Samples.store (-1))) <= -1)%Z.
Proof.
  split; [reflexivity|]. split; [reflexivity|].
  vm_compute. intros H. now apply H.
Qed.

(** C8, as the code has it.  For every store and every limit [K >= 0],
    [slowestTests] has at most [K] entries (exactly [K], or the whole
    pool when that is smaller); durations never go up along it; the pool
    holds one entry, title and duration, for each attempt whose own
    status is [passed], record after record and attempt after attempt;
    the entries are taken from the pool one for one, so a record with
    several passed attempts can appear several times; what is left out
    is no slower than what is kept; and among the entries of one
    duration the order is that of the pool. *)
Theorem findSlowestTests_ranked (m : Store) (K : Z) :
  (0 <= K)%Z ->
  let pool := passed_attempts (JsMap.values m) in
  let slowest := findSlowestTests m K in
  pool =
    flat_map
      (fun r =>
         map (fun a => {| st_testTitle := testTitle (test r);
                          st_duration := duration a |})
             (filter (fun a => Status_eqb (status a) passed) (attempts r)))
      (JsMap.values m) /\
  (forall x,
      In x pool <->
      exists r a,
        In r (JsMap.values m) /\ In a (attempts r) /\ status a = passed /\
        x = {| st_testTitle := testTitle (test r);
               st_duration := duration a |}) /\
  (Z.of_nat (length slowest) <= K)%Z /\
  Z.of_nat (length slowest) = Z.min K (Z.of_nat (length pool)) /\
  non_increasing slowest /\
  (forall x, In x slowest -> In x pool) /\
  (exists rest,
      Permutation (slowest ++ rest) pool /\
      forall x y, In x slowest -> In y rest ->
                  st_duration y <= st_duration x) /\
  (forall d, is_prefix_of (ties d slowest) (ties d pool)).
Proof.
  intros HK pool slowest.
  set (sorted := JsArray.sort by_duration_desc pool).
  assert (Hs : slowest = firstn (Z.to_nat K) sorted)
    by now apply slice0_nonneg.
  assert (Hperm : Permutation sorted pool) by apply sort_perm.
  assert (Hsorted : non_increasing sorted) by apply sort_sorted.
  assert (Hlen : length slowest = Nat.min (Z.to_nat K) (length pool)).
  { rewrite Hs, length_firstn. now rewrite (Permutation_length Hperm). }
  assert (Hin : forall x, In x slowest -> In x pool).
  { intros x Hx. apply (Permutation_in _ Hperm).
    rewrite <- (firstn_skipn (Z.to_nat K) sorted).
    apply in_or_app. left. now rewrite <- Hs. }
  split; [reflexivity|].
  split; [intros x; apply passed_attempts_In|].
  split; [lia|]. split; [lia|].
  split; [rewrite Hs; now apply firstn_sorted|].
  split; [exact Hin|].
  split.
  { exists (skipn (Z.to_nat K) sorted). rewrite Hs. split.
    - now rewrite firstn_skipn.
    - apply sorted_app_inv. now rewrite firstn_skipn. }
  intros d. exists (ties d (skipn (Z.to_nat K) sorted)).
  rewrite <- (ties_sort d pool). fold sorted.
  rewrite <- (firstn_skipn (Z.to_nat K) sorted) at 1.
  unfold ties. rewrite filter_app. now rewrite Hs.
Qed.

Lemma findSlowestTests_ranked_witness :
  (Z.of_nat (length (findSlowestTests Samples.store 2)) <= 2)%Z /\
  findSlowestTests Samples.store 2 =
  [ {| st_testTitle := "checkout"; st_duration := 3 # 2 |};
    {| st_testTitle := "search"; st_duration := 3 # 2 |} ].
Proof.
  assert (HK : (0 <= 2)%Z) by lia.
  destruct (findSlowestTests_ranked Samples.store 2 HK)
    as (_ & _ & Hlen & _).
  split; [exact Hlen | reflexivity].
Defined.

(** A negative limit is not a count: [slice] then drops entries from the
    end instead. *)
Example findSlowestTests_negative_limit :
  findSlowestTests Samples.store (-1) =
  [ {| st_testTitle := "checkout"; st_duration := 3 # 2 |};
    {| st_testTitle := "search"; st_duration := 3 # 2 |} ].
Proof. reflexivity. Qed.

(* ===================================================================== *)
(** * Further properties *)
(* ===================================================================== *)

(** ** Timing statistics *)

(** The average is computed as the machine computes it: three attempts
    of 100 ms average to 0.10000000000000002 s, above each of them; a sum
    past the largest binary64 number is an infinity. *)
Example calculateAverageTime_rounds :
  calculateAverageTime [] = Binary64.Finite 0 /\
  Binary64.same (calculateAverageTime [1; 3]) (Binary64.Finite 2) = true /\
  Binary64.same (calculateAverageTime [1 # 10; 1 # 10; 1 # 10])
    (Binary64.Finite (7205759403792795 # 72057594037927936)) = true /\
  calculateAverageTime [inject_Z (10 ^ 308); inject_Z (10 ^ 308)]
    = Binary64.PlusInfinity.
Proof. repeat split; vm_compute; reflexivity. Qed.

Lemma max_with_zero_acc (xs : list Q) (a : Q) :
  let r := fold_left (fun m x => if Qle_bool m x then x else m) xs a in
  a <= r /\ Forall (fun x => x <= r) xs /\ (r = a \/ In r xs).
Proof.
  revert a; induction xs as [|x xs IH]; intros a; cbn [fold_left].
  - split; [apply Qle_refl|]. split; [constructor|now left].
  - destruct (Qle_bool a x) eqn:E.
    + apply Qle_bool_iff in E.
      destruct (IH x) as (H1 & H2 & H3).
      split; [eapply Qle_trans; eassumption|].
      split; [now constructor|].
      destruct H3 as [->|H3]; right; [now left|now right].
    + assert (Hxa : x <= a).
      { destruct (Qlt_le_dec a x) as [Hlt|Hle]; [|exact Hle].
        apply Qlt_le_weak, Qle_bool_iff in Hlt. congruence. }
      destruct (IH a) as (H1 & H2 & H3).
      split; [exact H1|].
      split; [constructor; [eapply Qle_trans; eassumption|exact H2]|].
      destruct H3 as [->|H3]; [now left|right; now right].
Qed.

(** X2. The [slowestTest] of the summary, [Math.max(...passedDurations, 0)],
    is never negative, is at least every passed duration, and is either
    0 or one of the passed durations. *)
Theorem slowestTest_is_max (res : ProcessedResults) (display : string)
    (slowest : list SlowTest) (info : BuildInfo) :
  let summary := summary_of res display slowest info in
  0 <= slowestTest summary /\
  Forall (fun d => d <= slowestTest summary) (r_passedDurations res) /\
  (slowestTest summary = 0 \/ In (slowestTest summary) (r_passedDurations res)).
Proof.
  cbn [summary_of slowestTest]. apply max_with_zero_acc.
Qed.

(** ** Outcome labels and teams *)

(** [outcomeToStatus] turns a label into [failed] exactly for
    [unexpected], [flaky] and [failed] itself, into [passed] exactly for
    [expected] and [passed], leaves every label outside the four runner
    outcomes as it is, and applying it twice changes nothing more. *)
Lemma outcomeToStatus_classes (o : string) :
  (outcomeToStatus o = "failed" <->
   o = "unexpected" \/ o = "flaky" \/ o = "failed") /\
  (outcomeToStatus o = "passed" <-> o = "expected" \/ o = "passed") /\
  (outcomeToStatus o = "skipped" <-> o = "skipped") /\
  (outcomeToStatus o = o \/
   o = "expected" \/ o = "unexpected" \/ o = "flaky") /\
  outcomeToStatus (outcomeToStatus o) = outcomeToStatus o.
Proof.
  unfold outcomeToStatus.
  destruct (String.eqb_spec o "skipped") as [->|H1].
  { cbn. repeat split; intros; try discriminate; intuition discriminate. }
  destruct (String.eqb_spec o "expected") as [->|H2].
  { cbn. repeat split; intros; try discriminate; intuition discriminate. }
  destruct (String.eqb_spec o "unexpected") as [->|H3].
  { cbn. repeat split; intros; try discriminate; intuition discriminate. }
  destruct (String.eqb_spec o "flaky") as [->|H4].
  { cbn. repeat split; intros; try discriminate; intuition discriminate. }
  destruct (String.eqb_spec o "skipped"); [contradiction|].
  destruct (String.eqb_spec o "expected"); [contradiction|].
  destruct (String.eqb_spec o "unexpected"); [contradiction|].
  destruct (String.eqb_spec o "flaky"); [contradiction|].
  repeat split; intros; subst; intuition congruence.
Qed.

Lemma or_else_empty (s : string) : or_else s "" = s.
Proof. now destruct s. Qed.

Lemma recognised_Some (name : option string) (s : string) :
  recognised name = Some s ->
  s <> "" /\ In s (Team ++ object_prototype_keys).
Proof.
  unfold recognised. destruct name as [n|]; [|discriminate].
  destruct (String.eqb_spec n ""); cbn [negb andb]; [discriminate|].
  destruct (in_Team n) eqn:E; [|discriminate].
  intros H; inversion H; subst. split; [assumption|].
  unfold in_Team in E. apply existsb_exists in E.
  destruct E as (x & Hin & Hx). apply String.eqb_eq in Hx. now subst.
Qed.

Lemma Team_names_nonempty (team : string) : In team Team -> team <> "".
Proof.
  intros Hin ->. revert Hin. unfold Team. cbn.
  intuition discriminate.
Qed.

(** X3. [getOwningTeam] never returns the empty string: its result is a
    key of [Team], a property name every object inherits, or [Unknown].
    A team tag in the title decides alone: the result is then the first
    key of [Team], in declaration order, whose bracketed name occurs in
    the title (no key before it does), whatever the annotations and the
    environment say.  Without a tag, annotations and
    fallback the result is [Unknown]. *)
Theorem getOwningTeam_result (env : Env) (test : TestCase) :
  getOwningTeam env test <> "" /\
  In (getOwningTeam env test)
     (Team ++ object_prototype_keys ++ [FallbackTeam]) /\
  (existsb (fun team => includes (title test) (wrap team)) Team = true ->
   find (fun team => includes (title test) (wrap team)) Team
     = Some (getOwningTeam env test) /\
   (exists before after,
       Team = before ++ getOwningTeam env test :: after /\
       forall team, In team before ->
                    includes (title test) (wrap team) = false) /\
   In (getOwningTeam env test) Team /\
   includes (title test) (wrap (getOwningTeam env test)) = true /\
   forall env' anns,
     getOwningTeam env'
       {| id := id test; title := title test;
          parent_title := parent_title test;
          case_location := case_location test;
          case_outcome := case_outcome test;
          annotations := anns |}
     = getOwningTeam env test) /\
  (existsb (fun team => includes (title test) (wrap team)) Team = false ->
   annotations test = [] ->
   FALLBACK_TEAM env = None ->
   getOwningTeam env test = FallbackTeam).
Proof.
  unfold getOwningTeam. rewrite or_else_empty.
  destruct (find (fun team => includes (title test) (wrap team)) Team)
    as [team|] eqn:Hfind.
  - pose proof (find_some _ _ Hfind) as [Hin Hinc].
    split; [now apply Team_names_nonempty|].
    split; [apply in_or_app; now left|].
    split.
    + intros _. split; [reflexivity|]. split.
      { clear - Hfind. revert Hfind. generalize Team as teams.
        induction teams as [|t0 teams IH]; cbn [find]; [discriminate|].
        destruct (includes (title test) (wrap t0)) eqn:E.
        - intros H; inversion H; subst. exists [], teams.
          split; [reflexivity|intros ? []].
        - intros H. destruct (IH H) as (before & after & -> & Hb).
          exists (t0 :: before), after. split; [reflexivity|].
          intros t' [<-|Hin]; [exact E|now apply Hb]. }
      repeat split; try assumption.
      intros env' anns. cbn [title]. now rewrite or_else_empty, Hfind.
    + intros Hex. exfalso.
      rewrite <- Bool.not_true_iff_false in Hex. apply Hex.
      apply existsb_exists. now exists team.
  - assert (Hno : existsb (fun team => includes (title test) (wrap team)) Team
                  = false).
    { apply Bool.not_true_iff_false. intros Hex.
      apply existsb_exists in Hex. destruct Hex as (t & Hin & Hinc).
      pose proof (find_none _ _ Hfind t Hin) as Hn. cbn beta in Hn.
      congruence. }
    assert (Hrange :
      forall name s, recognised name = Some s ->
        s <> "" /\ In s (Team ++ object_prototype_keys ++ [FallbackTeam])).
    { intros name s Hs. apply recognised_Some in Hs. destruct Hs as [Hne Hin].
      split; [assumption|]. rewrite app_assoc. apply in_or_app. now left. }
    assert (Hfallback :
      FallbackTeam <> "" /\
      In FallbackTeam (Team ++ object_prototype_keys ++ [FallbackTeam])).
    { split; [discriminate|]. rewrite app_assoc. apply in_or_app.
      right. now left. }
    split; [|split; [|split]].
    + destruct (recognised (annotation_description "team" (annotations test)))
        eqn:E1; [now apply (Hrange _ _ E1)|].
      destruct (recognised (annotation_description "owner" (annotations test)))
        eqn:E2; [now apply (Hrange _ _ E2)|].
      destruct (recognised (FALLBACK_TEAM env)) eqn:E3;
        [now apply (Hrange _ _ E3)|apply Hfallback].
    + destruct (recognised (annotation_description "team" (annotations test)))
        eqn:E1; [now apply (Hrange _ _ E1)|].
      destruct (recognised (annotation_description "owner" (annotations test)))
        eqn:E2; [now apply (Hrange _ _ E2)|].
      destruct (recognised (FALLBACK_TEAM env)) eqn:E3;
        [now apply (Hrange _ _ E3)|apply Hfallback].
    + intros Hex. congruence.
    + intros _ Hanns Henv. now rewrite Hanns, Henv.
Qed.

Lemma getOwningTeam_result_witness :
  getOwningTeam Samples.env (Samples.case "[QA] [Frontend] login" OExpected)
    = "Frontend" /\
  getOwningTeam Samples.env (Samples.case "login" OExpected) = "Unknown".
Proof.
  split.
  - destruct (getOwningTeam_result Samples.env
                (Samples.case "[QA] [Frontend] login" OExpected))
      as (_ & _ & Htag & _).
    destruct (Htag eq_refl) as (_ & _ & _ & _ & Hsame).
    rewrite <- (Hsame Samples.env []). reflexivity.
  - destruct (getOwningTeam_result Samples.env (Samples.case "login" OExpected))
      as (_ & _ & _ & Hnone).
    now apply Hnone.
Defined.

(** ** Suites *)

Lemma countTests_acc (f : Suite -> Z) (g : Suite -> list TestCase)
    (suites : list Suite) (acc : Z) :
  Forall (fun c => f c = Z.of_nat (length (g c))) suites ->
  fold_left (fun count child => (count + f child)%Z) suites acc =
  (acc + Z.of_nat (length (flat_map g suites)))%Z.
Proof.
  intros H; revert acc; induction H as [|c cs Hc _ IH]; intros acc.
  - cbn. lia.
  - cbn [fold_left flat_map]. rewrite IH, Hc, length_app, Nat2Z.inj_add. lia.
Qed.

(** X4. [_countTests] counts each test of the suite and of every suite
    below it once, however deep the nesting. *)
Theorem countTests_all_tests (suite : Suite) :
  _countTests suite = Z.of_nat (length (tests_below suite)).
Proof.
  revert suite. fix IH 1. intros [tests suites].
  cbn [_countTests tests_below].
  rewrite length_app, Nat2Z.inj_add.
  apply countTests_acc.
  induction suites as [|c cs IHcs]; constructor; [apply IH|exact IHcs].
Qed.

(** ** The store under ingestion *)

Lemma get_set (k k' : string) (v : TestRecord) (m : Store) :
  JsMap.get k' (JsMap.set k v m) =
  if String.eqb k' k then Some v else JsMap.get k' m.
Proof.
  induction m as [|[k0 v0] m IH]; cbn [JsMap.set JsMap.get].
  - destruct (String.eqb k' k); reflexivity.
  - destruct (String.eqb_spec k k0) as [->|Hne]; cbn [JsMap.get].
    + destruct (String.eqb k' k0); reflexivity.
    + rewrite IH. destruct (String.eqb_spec k' k0) as [->|Hne'];
        [|reflexivity].
      destruct (String.eqb_spec k0 k); [congruence|reflexivity].
Qed.

Lemma set_set (k : string) (v v' : TestRecord) (m : Store) :
  JsMap.set k v' (JsMap.set k v m) = JsMap.set k v' m.
Proof.
  induction m as [|[k0 v0] m IH]; cbn [JsMap.set].
  - now rewrite String.eqb_refl.
  - destruct (String.eqb k k0) eqn:E; cbn [JsMap.set].
    + now rewrite String.eqb_refl.
    + now rewrite E, IH.
Qed.

Lemma has_In (k : string) (m : Store) :
  JsMap.has k m = true <-> In k (JsMap.keys m).
Proof.
  unfold JsMap.has, JsMap.keys.
  induction m as [|[k0 v0] m IH]; cbn [JsMap.get map fst In].
  - split; [discriminate|contradiction].
  - destruct (String.eqb_spec k k0) as [->|Hne].
    + split; [now left|reflexivity].
    + rewrite IH. split; [now right|intros [E|H]; [congruence|exact H]].
Qed.

Lemma get_In (k : string) (r : TestRecord) (m : Store) :
  JsMap.get k m = Some r -> In (k, r) m.
Proof.
  induction m as [|[k0 v0] m IH]; cbn [JsMap.get]; [discriminate|].
  destruct (String.eqb_spec k k0) as [->|Hne].
  - intros H; inversion H; now left.
  - intros H; right; now apply IH.
Qed.

Lemma keys_set (k : string) (v : TestRecord) (m : Store) :
  JsMap.keys (JsMap.set k v m) =
  if JsMap.has k m then JsMap.keys m else JsMap.keys m ++ [k].
Proof.
  unfold JsMap.has, JsMap.keys.
  induction m as [|[k0 v0] m IH]; cbn [JsMap.set JsMap.get map fst app].
  - reflexivity.
  - destruct (String.eqb k k0) eqn:E; cbn [map fst].
    + apply String.eqb_eq in E. now subst.
    + rewrite IH. now destruct (JsMap.get k m).
Qed.

Lemma total_attempts_set (k : string) (v : TestRecord) (m : Store) :
  (total_attempts (JsMap.set k v m)
   + match JsMap.get k m with
     | Some r => length (attempts r)
     | None => 0
     end
   = total_attempts m + length (attempts v))%nat.
Proof.
  unfold total_attempts, list_sum.
  induction m as [|[k0 v0] m IH];
    cbn [JsMap.set JsMap.get map fold_right snd].
  - lia.
  - destruct (String.eqb k k0); cbn [map fold_right snd]; lia.
Qed.

(** The store after [onTestEnd]: the record of the title, found or
    made, with the attempt pushed, put back at its key. *)
Lemma onTestEnd_store (env : Env) (test : TestCase) (result : TestResult)
    (st : State) :
  _testRecords (snd (onTestEnd env test result st)) =
  JsMap.set (title test)
    (push_attempt (attempt_of result) (record_for env test (_testRecords st)))
    (_testRecords st).
Proof.
  destruct st as [od m t0 cfg errs intr fh con fl ec].
  unfold onTestEnd, record_for, bind, gets, modify, when, addFailure,
    _logTestOutcome, log.
  cbn [_testRecords _fileHandler _hasInterruptedTests _nonTestErrors _config
       exitCode files console outputDir _startTime
       with_testRecords with_fileHandler with_hasInterruptedTests
       with_console negb ret].
  unfold JsMap.has.
  destruct (JsMap.get (title test) m) as [r|] eqn:Hget;
    cbn [negb ret _testRecords with_testRecords].
  - rewrite Hget.
    destruct (Status_eqb (res_status result) failed
              || Status_eqb (res_status result) timedOut);
      destruct (Status_eqb (res_status result) interrupted); reflexivity.
  - rewrite get_set_same.
    destruct (Status_eqb (res_status result) failed
              || Status_eqb (res_status result) timedOut);
      destruct (Status_eqb (res_status result) interrupted);
      cbn; now rewrite set_set.
Qed.

(** X5. After [onTestEnd] the record at the title of the test is the
    one that was there with the new attempt added at the end, its
    metadata untouched, or, for a title seen for the first time, a new
    record with the metadata of this test and the attempt alone.  Every
    other record is as it was, and the order of the keys is kept, a new
    title going last. *)
Theorem onTestEnd_records (env : Env) (tc : TestCase) (result : TestResult)
    (st : State) :
  let m := _testRecords st in
  let m' := _testRecords (snd (onTestEnd env tc result st)) in
  (forall k,
      JsMap.get k m' =
      if String.eqb k (title tc)
      then match JsMap.get (title tc) m with
           | Some r => Some {| test := test r;
                               attempts := attempts r ++ [attempt_of result] |}
           | None => Some {| test := testCaseDetails_of env tc;
                             attempts := [attempt_of result] |}
           end
      else JsMap.get k m) /\
  JsMap.keys m' =
    (if JsMap.has (title tc) m then JsMap.keys m
     else JsMap.keys m ++ [title tc]).
Proof.
  cbn zeta. rewrite onTestEnd_store. split.
  - intros k. rewrite get_set. unfold record_for, push_attempt.
    destruct (String.eqb k (title tc)); [|reflexivity].
    now destruct (JsMap.get (title tc) (_testRecords st)).
  - apply keys_set.
Qed.

(** ** Runs of callbacks *)

Lemma onError_effect (error : Error) (st : State) :
  exists st',
    onError error st = (Ok tt, st') /\
    _nonTestErrors st' = _nonTestErrors st ++ [error] /\
    _testRecords st' = _testRecords st /\
    _hasInterruptedTests st' = _hasInterruptedTests st /\
    _fileHandler st' = _fileHandler st /\
    _config st' = _config st /\
    exitCode st' = exitCode st /\
    files st' = files st.
Proof.
  destruct st as [od m t0 cfg errs intr fh con fl ec].
  eexists. split; [reflexivity|]. repeat split.
Qed.

(** What one callback does to the fields other than the store. *)
Lemma deliver_effect (env : Env) (ev : Event) (st : State) :
  exists st',
    deliver env ev st = (Ok tt, st') /\
    _nonTestErrors st' = _nonTestErrors st ++ event_errors [ev] /\
    _hasInterruptedTests st' =
      _hasInterruptedTests st || event_interrupted [ev] /\
    fh_failures (_fileHandler st') =
      fh_failures (_fileHandler st) ++ event_failures env [ev] /\
    _config st' = _config st /\
    exitCode st' = exitCode st /\
    files st' = files st.
Proof.
  destruct ev as [e|t r]; cbn [deliver].
  - destruct (onError_effect e st)
      as (st' & Hrun & He & _ & Hi & Hfh & Hc & Hx & Hf).
    exists st'. split; [exact Hrun|].
    cbn. rewrite He, Hi, Hfh, Hc, Hx, Hf, app_nil_r, orb_false_r.
    repeat split.
  - destruct (onTestEnd_effect env t r st)
      as (st' & Hrun & _ & Hfh & Hi & He & Hc & Hx & Hf).
    exists st'. split; [exact Hrun|].
    cbn [event_errors event_interrupted event_failures flat_map existsb].
    rewrite He, Hi, Hfh, Hc, Hx, Hf, !app_nil_r, orb_false_r.
    repeat split.
    destruct (Status_eqb (res_status r) interrupted);
      [now rewrite orb_true_r|now rewrite orb_false_r].
Qed.

Lemma deliver_all_effect (env : Env) (evs : list Event) (st : State) :
  exists st',
    deliver_all env evs st = (Ok tt, st') /\
    _nonTestErrors st' = _nonTestErrors st ++ event_errors evs /\
    _hasInterruptedTests st' =
      _hasInterruptedTests st || event_interrupted evs /\
    fh_failures (_fileHandler st') =
      fh_failures (_fileHandler st) ++ event_failures env evs /\
    _config st' = _config st /\
    exitCode st' = exitCode st /\
    files st' = files st.
Proof.
  revert st; induction evs as [|ev evs IH]; intros st.
  - exists st. cbn. rewrite !app_nil_r, orb_false_r. repeat split.
  - destruct (deliver_effect env ev st)
      as (s1 & Hrun1 & He1 & Hi1 & Hfh1 & Hc1 & Hx1 & Hf1).
    destruct (IH s1) as (s2 & Hrun2 & He2 & Hi2 & Hfh2 & Hc2 & Hx2 & Hf2).
    exists s2. cbn [deliver_all]. unfold bind. rewrite Hrun1.
    split; [exact Hrun2|].
    rewrite He2, He1, Hi2, Hi1, Hfh2, Hfh1, Hc2, Hc1, Hx2, Hx1, Hf2, Hf1.
    change (ev :: evs) with ([ev] ++ evs).
    unfold event_errors, event_failures, event_interrupted.
    rewrite !flat_map_app, existsb_app, !app_assoc, orb_assoc.
    repeat split.
Qed.

(** X6. Over any sequence of callbacks from a new reporter, nothing
    raises, the non-test errors are the errors given to [onError] in
    order, the interruption flag is set exactly when some attempt ended
    [interrupted] (once set it stays), and the reporter sets no exit
    code before [onEnd]. *)
Theorem callbacks_record_errors (env : Env) (config : ReporterConfigInput)
    (evs : list Event) :
  exists st,
    deliver_all env evs (constructor config) = (Ok tt, st) /\
    _nonTestErrors st = event_errors evs /\
    _hasInterruptedTests st = event_interrupted evs /\
    (forall more,
        event_interrupted evs = true ->
        _hasInterruptedTests (snd (deliver_all env more st)) = true) /\
    exitCode st = None.
Proof.
  destruct (deliver_all_effect env evs (constructor config))
    as (st & Hrun & He & Hi & _ & _ & Hx & _).
  exists st. split; [exact Hrun|].
  split; [exact He|]. split; [exact Hi|].
  split; [|assumption].
  intros more Hint.
  destruct (deliver_all_effect env more st) as (s2 & Hrun2 & _ & Hi2 & _).
  rewrite Hrun2. cbn [snd]. rewrite Hi2, Hi. cbn. now rewrite Hint.
Qed.

Lemma callbacks_record_errors_witness :
  exists st,
    deliver_all Samples.env Samples.mixed_run (constructor Samples.config)
      = (Ok tt, st) /\
    length (_nonTestErrors st) = 1%nat /\
    _hasInterruptedTests
      (snd (deliver_all Samples.env Samples.passing_run st)) = true.
Proof.
  destruct (callbacks_record_errors Samples.env Samples.config
              Samples.mixed_run) as (st & Hrun & He & _ & Hsticky & _).
  exists st. split; [exact Hrun|]. split; [now rewrite He|].
  now apply Hsticky.
Defined.

(** X7. Over any sequence of callbacks, [addFailure] is called once for
    each attempt that ended [failed] or [timedOut], retries included, in
    the order of the attempts, and for no other attempt. *)
Theorem callbacks_add_failures (env : Env) (evs : list Event) (st : State) :
  fh_failures (_fileHandler (snd (deliver_all env evs st))) =
  fh_failures (_fileHandler st)
    ++ flat_map
         (fun ev =>
            match ev with
            | TestEndEvent t r =>
                match res_status r with
                | failed | timedOut => [provisional_failure env t r]
                | passed | skipped | interrupted => []
                end
            | ErrorEvent _ => []
            end) evs.
Proof.
  destruct (deliver_all_effect env evs st) as (st' & Hrun & _ & _ & Hfh & _).
  rewrite Hrun. cbn [snd]. rewrite Hfh. f_equal.
  unfold event_failures. apply flat_map_ext.
  intros [e|t r]; [reflexivity|]. now destruct (res_status r).
Qed.

(** What one callback does to the store. *)
Lemma deliver_store (env : Env) (ev : Event) (st : State) :
  NoDup (JsMap.keys (_testRecords st)) ->
  Forall (ingested env) (_testRecords st) ->
  let m := _testRecords st in
  let m' := _testRecords (snd (deliver env ev st)) in
  NoDup (JsMap.keys m') /\
  Forall (ingested env) m' /\
  (forall k, In k (JsMap.keys m') <->
             In k (JsMap.keys m) \/ In k (event_titles [ev])) /\
  total_attempts m' = (total_attempts m + length (event_titles [ev]))%nat.
Proof.
  intros Hnd Hing. cbn zeta. destruct ev as [e|t r]; cbn [deliver].
  - destruct (onError_effect e st) as (st' & Hrun & _ & Hm & _).
    rewrite Hrun. cbn [snd]. rewrite Hm. cbn.
    repeat split; try assumption; intuition.
  - rewrite onTestEnd_store.
    set (m := _testRecords st) in *.
    rewrite keys_set. cbn [event_titles flat_map app length].
    assert (Hv : ingested env
                   (title t, push_attempt (attempt_of r) (record_for env t m))).
    { unfold record_for. destruct (JsMap.get (title t) m) as [r0|] eqn:Hget.
      - apply get_In in Hget. rewrite Forall_forall in Hing.
        destruct (Hing _ Hget) as (t0 & Ht0 & Hk). now exists t0.
      - now exists t. }
    split; [|split; [now apply set_Forall|split]].
    + destruct (JsMap.has (title t) m) eqn:Hhas; [assumption|].
      apply NoDup_app; [assumption|repeat constructor; intros []|].
      intros k Hk [<-|[]]. apply has_In in Hk. congruence.
    + intros k. destruct (JsMap.has (title t) m) eqn:Hhas.
      * apply has_In in Hhas. split; [now left|].
        intros [H|[<-|[]]]; assumption.
      * rewrite in_app_iff. reflexivity.
    + pose proof (total_attempts_set (title t)
                    (push_attempt (attempt_of r) (record_for env t m)) m) as H.
      unfold record_for in *. cbn [push_attempt attempts] in H.
      rewrite length_app in H. cbn [length] in H.
      destruct (JsMap.get (title t) m); cbn [attempts length] in H; lia.
Qed.

Lemma deliver_all_store (env : Env) (evs : list Event) (st : State) :
  NoDup (JsMap.keys (_testRecords st)) ->
  Forall (ingested env) (_testRecords st) ->
  let m := _testRecords st in
  let m' := _testRecords (snd (deliver_all env evs st)) in
  NoDup (JsMap.keys m') /\
  Forall (ingested env) m' /\
  (forall k, In k (JsMap.keys m') <->
             In k (JsMap.keys m) \/ In k (event_titles evs)) /\
  total_attempts m' = (total_attempts m + length (event_titles evs))%nat.
Proof.
  cbn zeta. revert st; induction evs as [|ev evs IH]; intros st Hnd Hing.
  - cbn. repeat split; try assumption; try lia; intuition.
  - destruct (deliver_store env ev st Hnd Hing) as (Hnd1 & Hing1 & Hk1 & Ht1).
    destruct (deliver_effect env ev st) as (s1 & Hrun1 & _).
    rewrite Hrun1 in Hnd1, Hing1, Hk1, Ht1. cbn [snd] in Hnd1, Hing1, Hk1, Ht1.
    destruct (IH s1 Hnd1 Hing1) as (Hnd2 & Hing2 & Hk2 & Ht2).
    cbn [deliver_all]. unfold bind. rewrite Hrun1.
    split; [exact Hnd2|]. split; [exact Hing2|].
    change (ev :: evs) with ([ev] ++ evs). unfold event_titles in *.
    rewrite flat_map_app, length_app. split.
    + intros k. rewrite Hk2, Hk1, in_app_iff. tauto.
    + rewrite Ht2, Ht1. lia.
Qed.

Lemma reachable_store (env : Env) (config : ReporterConfigInput)
    (evs : list Event) :
  let m := _testRecords (snd (deliver_all env evs (constructor config))) in
  NoDup (JsMap.keys m) /\
  Forall (ingested env) m /\
  (forall k, In k (JsMap.keys m) <-> In k (event_titles evs)) /\
  total_attempts m = length (event_titles evs).
Proof.
  destruct (deliver_all_store env evs (constructor config))
    as (Hnd & Hing & Hk & Ht); [constructor|constructor|].
  cbn zeta. split; [exact Hnd|]. split; [exact Hing|]. split.
  - intros k. rewrite Hk. cbn. tauto.
  - exact Ht.
Qed.

(** X8. After any sequence of callbacks from a new reporter the store
    has one record per distinct title reported, keyed by that title, so
    tests that share a title share a record; and it holds every attempt
    reported: none is dropped and none added. *)
Theorem store_after_callbacks (env : Env) (config : ReporterConfigInput)
    (evs : list Event) :
  let m := _testRecords (snd (deliver_all env evs (constructor config))) in
  NoDup (JsMap.keys m) /\
  Forall (fun kv => fst kv = testTitle (test (snd kv))) m /\
  (forall k, In k (JsMap.keys m) <-> In k (event_titles evs)) /\
  length m = length (nodup string_dec (event_titles evs)) /\
  total_attempts m = length (event_titles evs).
Proof.
  destruct (reachable_store env config evs) as (Hnd & Hing & Hk & Ht).
  cbn zeta. split; [exact Hnd|]. split.
  { eapply Forall_impl; [|exact Hing].
    intros [k r] (t & Htest & Hkey). cbn in *. now rewrite Htest, Hkey. }
  split; [exact Hk|]. split; [|exact Ht].
  rewrite <- (length_map fst). apply Permutation_length.
  apply NoDup_Permutation; [exact Hnd|apply NoDup_nodup|].
  intros k. unfold JsMap.keys in Hk. rewrite Hk. symmetry. apply nodup_In.
Qed.

(** ** Result processing, continued *)

Lemma last_elem_None {A} (xs : list A) :
  JsArray.last_elem xs = None <-> xs = [].
Proof.
  split; [|now intros ->].
  destruct xs as [|x xs]; [reflexivity|].
  intros H. destruct (last_elem_nonempty (x :: xs)) as [y Hy]; [discriminate|].
  congruence.
Qed.

Lemma for_of_processRecord_is_ok (rs : list TestRecord) (acc : Locals)
    (s : Store) :
  match fst (for_of processRecord rs acc s) with
  | Ok _ => forallb processable rs = true
  | Throw e => forallb processable rs = false /\ e = undefined_read
  end.
Proof.
  revert acc; induction rs as [|r rs IH]; intros acc; [reflexivity|].
  cbn [for_of forallb]. unfold bind.
  pose proof (processRecord_cases acc r s) as Hc. unfold processable.
  destruct (disposition r);
    try (destruct (JsArray.last_elem (attempts r)) as [fa|] eqn:Hlast);
    rewrite Hc; cbn [fst andb];
    try (assert (Hne : nonempty (attempts r) = true)
           by (destruct (attempts r); [discriminate|reflexivity]);
         rewrite Hne; cbn [andb]);
    try apply IH;
    apply last_elem_None in Hlast; rewrite Hlast; split; reflexivity.
Qed.

(** X9. [processTestResults] raises exactly when some record whose
    outcome is neither [expected], [flaky] nor [skipped] has no attempt;
    what it raises is then the [TypeError] of reading a property of
    [undefined].  In every other case it returns. *)
Theorem processTestResults_raises (m : Store) :
  is_ok (processTestResults m) = forallb processable (JsMap.values m) /\
  match processTestResults m with
  | Ok _ => True
  | Throw e => e = undefined_read
  end.
Proof.
  unfold processTestResults. rewrite processTestResultsM_unfold.
  pose proof (for_of_processRecord_is_ok (JsMap.values m) locals0 m) as H.
  destruct (for_of processRecord (JsMap.values m) locals0 m) as [[acc|e] s'];
    cbn [fst is_ok] in *.
  - now rewrite H.
  - destruct H as [-> ->]. now split.
Qed.

Lemma ingested_disposition (env : Env) (kv : string * TestRecord) :
  ingested env kv ->
  disposition (snd kv) =
  (if is_unexpected (snd kv) then DFailed
   else if outcome_is (outcome (test (snd kv))) "skipped" then DSkipped
   else DPassed) /\
  tc_status (test (snd kv)) =
  option_map outcomeToStatus (outcome (test (snd kv))).
Proof.
  intros (t & Ht & _). unfold disposition, is_unexpected. rewrite Ht.
  destruct t as [? ? ? ? [] ?]; split; reflexivity.
Qed.

Lemma flat_map_filter {A B} (f g : A -> list B) (p : A -> bool) (l : list A) :
  Forall (fun x => f x = if p x then g x else []) l ->
  flat_map f l = flat_map g (filter p l).
Proof.
  induction 1 as [|x l Hx _ IH]; [reflexivity|].
  cbn [flat_map filter]. rewrite Hx, IH. now destruct (p x).
Qed.

(** X10. In a state the callbacks can reach, result processing returns,
    and its failures are those of the records whose captured outcome is
    [unexpected], one each, built from the last attempt, in store order;
    the branch for an unrecognised outcome is never taken. *)
Theorem reachable_failures (env : Env) (st : State) :
  reachable env st ->
  exists res,
    processTestResults (_testRecords st) = Ok res /\
    r_failures res =
      flat_map (fun r => match JsArray.last_elem (attempts r) with
                         | Some fa => [unexpected_failure (test r) fa]
                         | None => []
                         end)
               (filter is_unexpected (JsMap.values (_testRecords st))) /\
    r_failedCount res =
      Z.of_nat (length (filter is_unexpected
                               (JsMap.values (_testRecords st)))) /\
    count_disposition DErrored (JsMap.values (_testRecords st)) = 0%Z.
Proof.
  intros Hreach.
  destruct (processTestResults_total _ (reachable_wf_store env st Hreach))
    as [res Hres].
  destruct Hreach as (config & evs & <-).
  destruct (reachable_store env config evs) as (_ & Hing & _).
  set (m := _testRecords (snd (deliver_all env evs (constructor config)))) in *.
  destruct (processTestResults_ok _ _ Hres) as (_ & _ & _ & Hf & _ & Hfc & Hl).
  assert (Hdisp : Forall (fun r =>
            disposition r = if is_unexpected r then DFailed
                            else if outcome_is (outcome (test r)) "skipped"
                                 then DSkipped else DPassed)
            (JsMap.values m)).
  { unfold JsMap.values. apply Forall_map.
    eapply Forall_impl; [|exact Hing].
    intros kv Hkv. now apply ingested_disposition in Hkv. }
  assert (Herr : count_disposition DErrored (JsMap.values m) = 0%Z).
  { clear - Hdisp. unfold count_disposition.
    induction Hdisp as [|r rs Hr _ IH]; [reflexivity|].
    cbn [filter]. rewrite Hr.
    destruct (is_unexpected r); [exact IH|].
    destruct (outcome_is (outcome (test r)) "skipped"); exact IH. }
  assert (Hcount : count_disposition DFailed (JsMap.values m) =
                   Z.of_nat (length (filter is_unexpected (JsMap.values m)))).
  { clear - Hdisp. unfold count_disposition. do 2 f_equal.
    induction Hdisp as [|r rs Hr _ IH]; [reflexivity|].
    cbn [filter]. rewrite Hr.
    destruct (is_unexpected r); cbn [Disposition_eqb]; [now rewrite IH|].
    destruct (outcome_is (outcome (test r)) "skipped"); exact IH. }
  exists res. split; [exact Hres|].
  split; [|split; [lia|exact Herr]].
  rewrite Hf. apply flat_map_filter.
  eapply Forall_impl; [|exact Hdisp].
  intros r Hr. unfold failures_of. rewrite Hr.
  destruct (is_unexpected r); [reflexivity|].
  now destruct (outcome_is (outcome (test r)) "skipped").
Qed.

Lemma reachable_failures_witness :
  exists res,
    processTestResults
      (_testRecords (snd (deliver_all Samples.env Samples.mixed_run
                            (constructor Samples.config)))) = Ok res /\
    r_failedCount res = 1%Z.
Proof.
  destruct (reachable_failures Samples.env
              (snd (deliver_all Samples.env Samples.mixed_run
                      (constructor Samples.config))))
    as (res & Hres & _ & Hfc & _).
  { exists Samples.config, Samples.mixed_run. reflexivity. }
  exists res. split; [exact Hres|]. rewrite Hfc. reflexivity.
Defined.

Lemma passed_attempts_durations (rs : list TestRecord) :
  map st_duration (passed_attempts rs) =
  flat_map (fun r => map duration (filter is_passed (attempts r))) rs.
Proof.
  unfold passed_attempts.
  induction rs as [|r rs IH]; [reflexivity|].
  cbn [flat_map]. rewrite map_app, IH, map_map. reflexivity.
Qed.

(** X11. The passed durations that feed the average and [slowestTest]
    are the durations of the slowest-tests pool restricted to the
    records counted as passed: a passed attempt of a record whose
    outcome is [unexpected] or [skipped] can be ranked among the slowest
    tests but never enters the average. *)
Theorem passedDurations_from_pool (m : Store) :
  match processTestResults m with
  | Ok res =>
      r_passedDurations res =
      map st_duration
          (passed_attempts
             (filter (fun r => Disposition_eqb (disposition r) DPassed)
                     (JsMap.values m)))
  | Throw _ => True
  end.
Proof.
  destruct (processTestResults m) as [res|e] eqn:Hres; [|exact I].
  destruct (processTestResults_ok _ _ Hres) as (_ & _ & _ & _ & Hd & _).
  rewrite Hd, passed_attempts_durations. apply flat_map_filter.
  apply Forall_forall. intros r _. unfold durations_of.
  now destruct (disposition r).
Qed.

(** ** The end of the run, continued *)

Lemma onEnd_empty (env : Env) (st : State) :
  _testRecords st = [] ->
  onEnd env st =
  (Ok tt,
   with_exitCode (Some 1%Z)
     (with_console (console st ++ [NoTestsFoundLine]) st)).
Proof.
  intros Hempty. destruct st as [od m t0 cfg errs intr fh con fl ec].
  cbn in Hempty. subst m. reflexivity.
Qed.

Lemma onEnd_throw (env : Env) (st : State) (e : Exn) :
  processTestResults (_testRecords st) = Throw e ->
  onEnd env st = (Throw e, st).
Proof.
  intros Hres. unfold onEnd. unfold bind at 1, gets at 1.
  unfold bind at 1, on_testRecords at 1.
  now rewrite processTestResultsM_eq, Hres, with_testRecords_same.
Qed.

(** In a store made by ingestion, failures come from the records whose
    captured outcome is [unexpected]. *)
Lemma failures_nonempty (env : Env) (m : Store) (res : ProcessedResults) :
  Forall (ingested env) m ->
  wf_store m ->
  processTestResults m = Ok res ->
  nonempty (r_failures res) = existsb is_unexpected (JsMap.values m).
Proof.
  intros Hing Hwf Hres.
  destruct (processTestResults_ok _ _ Hres) as (_ & _ & _ & -> & _).
  clear Hres. unfold JsMap.values.
  induction Hing as [|kv m Hkv _ IH]; [reflexivity|].
  inversion Hwf as [|? ? Hne Hwf']; subst.
  cbn [map flat_map existsb].
  destruct (ingested_disposition env kv Hkv) as [Hd _].
  destruct (last_elem_nonempty _ Hne) as [fa Hfa].
  unfold failures_of at 1. rewrite Hd, Hfa.
  destruct (is_unexpected (snd kv)); [reflexivity|].
  destruct (outcome_is (outcome (test (snd kv))) "skipped");
    cbn [app orb]; now apply IH.
Qed.

(** X12. A whole run never raises and always sets the exit code: to 1
    when no attempt was reported; otherwise to 1 when a record's captured
    outcome is [unexpected], an error was given to [onError] or an
    attempt was interrupted, and to 0 when none of these holds. *)
Theorem run_exit_code (env : Env) (config : ReporterConfigInput)
    (evs : list Event) :
  exists st,
    run env config evs = (Ok tt, st) /\
    exitCode st =
      Some (if Nat.eqb (length (event_titles evs)) 0 then 1
            else if existsb is_unexpected (JsMap.values (_testRecords st))
                    || nonempty (event_errors evs)
                    || event_interrupted evs
                 then 1 else 0)%Z.
Proof.
  destruct (deliver_all_effect env evs (constructor config))
    as (st0 & Hrun & He & Hi & _).
  destruct (reachable_store env config evs) as (_ & Hing & Hk & Ht).
  rewrite Hrun in Hing, Hk, Ht. cbn [snd] in Hing, Hk, Ht.
  assert (Hwf : wf_store (_testRecords st0)).
  { apply (reachable_wf_store env). exists config, evs. now rewrite Hrun. }
  unfold run, bind. rewrite Hrun.
  destruct (_testRecords st0) as [|kv m] eqn:Hstore.
  - rewrite (onEnd_empty env st0 Hstore). eexists. split; [reflexivity|].
    cbn [exitCode with_exitCode]. cbn in Ht. now rewrite <- Ht.
  - assert (Hn : Nat.eqb (length (event_titles evs)) 0 = false).
    { apply Nat.eqb_neq. intros Hz.
      assert (Hin : In (fst kv) (event_titles evs))
        by (apply Hk; now left).
      destruct (event_titles evs); [contradiction|discriminate]. }
    rewrite <- Hstore in *.
    destruct (processTestResults_total _ Hwf) as [res Hres].
    assert (Hcount : r_testCount res <> 0%Z).
    { destruct (processTestResults_ok _ _ Hres) as (Hc & _).
      rewrite Hc, Hstore. cbn [length]. lia. }
    destruct (onEnd_with_tests env st0 res Hres Hcount) as (s1 & R1 & Hend).
    rewrite Hend. eexists. split; [reflexivity|].
    cbn [exitCode with_exitCode]. rewrite Hn.
    replace (_testRecords (with_exitCode _ s1)) with (_testRecords st0).
    2:{ destruct R1 as (_ & <- & _). now destruct s1. }
    unfold hasErrors_of.
    rewrite (failures_nonempty env _ res Hing Hwf Hres), He, Hi.
    reflexivity.
Qed.

(** X13. Whether [onEnd] raises, and the exit code it leaves, do not
    depend on the surroundings: the clock, the build information and
    whether the output files can be written change neither. *)
Theorem onEnd_exit_code_ignores_env (env env' : Env) (st : State) :
  fst (onEnd env st) = fst (onEnd env' st) /\
  exitCode (snd (onEnd env st)) = exitCode (snd (onEnd env' st)).
Proof.
  destruct (processTestResults (_testRecords st)) as [res|e] eqn:Hres.
  - destruct (Z.eq_dec (r_testCount res) 0) as [Hz|Hnz].
    + assert (Hempty : _testRecords st = []).
      { destruct (processTestResults_ok _ _ Hres) as (Hc & _).
        rewrite Hz in Hc. destruct (_testRecords st); [reflexivity|].
        cbn [length] in Hc. lia. }
      now rewrite !(onEnd_empty _ st Hempty).
    + destruct (onEnd_with_tests env st res Hres Hnz) as (s1 & _ & ->).
      destruct (onEnd_with_tests env' st res Hres Hnz) as (s2 & _ & ->).
      split; [reflexivity|]. now destruct s1, s2.
  - now rewrite !(onEnd_throw _ st e Hres).
Qed.

Lemma ends_in_seq (Q : State -> Prop) (m k : M State unit) (s : State) :
  reports_only m ->
  (forall s', same_reporter s s' -> ends_in Q k s') ->
  ends_in Q (bind m (fun _ => k)) s.
Proof.
  intros Hm Hk. destruct (Hm s) as (s1 & E1 & R1).
  destruct (Hk s1 R1) as (s2 & E2 & HQ).
  exists s2. unfold bind. rewrite E1. now split.
Qed.

Lemma ingested_status_is_failed (env : Env) (kv : string * TestRecord) :
  ingested env kv ->
  status_is_failed (snd kv) =
  is_unexpected (snd kv) || outcome_is (outcome (test (snd kv))) "flaky".
Proof.
  intros (t & Ht & _). unfold status_is_failed, is_unexpected. rewrite Ht.
  now destruct t as [? ? ? ? [] ?].
Qed.

(** [onEnd], when a test was counted and the last-run file can be
    written: the last-run record it leaves. *)
Lemma onEnd_last_run (env : Env) (st : State) (res : ProcessedResults) :
  processTestResults (_testRecords st) = Ok res ->
  r_testCount res <> 0%Z ->
  writable env (path_join (outputDir st) ".last-run.json") = true ->
  ends_in
    (fun st' =>
       last_run_file st' =
       Some (LastRunJson
               (if nonempty (r_failures res) then "failed" else "passed")
               (map (fun r => opt_or_else (testId (test r)) "")
                    (filter status_is_failed
                            (JsMap.values (_testRecords st))))))
    (onEnd env) st.
Proof.
  intros Hres Hcount Hw.
  unfold ends_in, onEnd. unfold bind at 1, gets at 1.
  unfold bind at 1, on_testRecords at 1.
  rewrite processTestResultsM_eq, Hres, with_testRecords_same.
  apply Z.eqb_neq in Hcount. rewrite Hcount.
  unfold bind at 1, gets at 1.
  unfold bind at 1, on_testRecords at 1, gets at 1.
  rewrite with_testRecords_same.
  apply ends_in_seq; [auto with reports|]. intros s1 R1.
  apply ends_in_seq; [auto with reports|]. intros s2 R2.
  unfold ends_in, bind at 1, gets at 1.
  apply ends_in_seq; [auto with reports|]. intros s3 R3.
  apply ends_in_seq; [auto with reports|]. intros s4 R4.
  unfold ends_in, bind at 1, on_testRecords at 1, gets at 1.
  rewrite with_testRecords_same.
  apply ends_in_seq; [auto with reports|]. intros s5 R5.
  assert (R : same_reporter st s5).
  { eapply same_reporter_trans; [exact R1|].
    eapply same_reporter_trans; [exact R2|].
    eapply same_reporter_trans; [exact R3|].
    eapply same_reporter_trans; [exact R4|exact R5]. }
  destruct R as (Hod & Hm & _).
  unfold ends_in, bind at 1.
  rewrite saveLastRunStatus_writes by now rewrite Hod.
  rewrite Hod, Hm.
  unfold bind, gets, when, log, modify, _exitWithError, _exitWithSuccess, ret.
  destruct s5 as [od m t0 cfg errs intr fh con fl ec].
  cbn [_hasInterruptedTests _nonTestErrors with_files with_console
       console files].
  destruct intr; cbn [_hasInterruptedTests _nonTestErrors with_files
                      with_console console files];
    destruct (hasErrors_of (r_failures res) errs _);
    (eexists; split; [reflexivity|]);
    unfold last_run_file; cbn [files with_exitCode with_console with_files];
    rewrite rev_app_distr; reflexivity.
Qed.

(** X14. At the end of a reachable run that recorded a test, when the
    last-run file can be written, [onEnd] leaves a last-run record
    whose status is [failed] exactly when some record's captured outcome
    is [unexpected], and whose [failedTests] are the ids of the records
    whose captured outcome is [unexpected] or [flaky], in store order. *)
Theorem onEnd_writes_last_run (env : Env) (st : State) :
  reachable env st ->
  _testRecords st <> [] ->
  writable env (path_join (outputDir st) ".last-run.json") = true ->
  let rs := JsMap.values (_testRecords st) in
  exists st',
    onEnd env st = (Ok tt, st') /\
    last_run_file st' =
    Some (LastRunJson
            (if existsb is_unexpected rs then "failed" else "passed")
            (map (fun r => opt_or_else (testId (test r)) "")
                 (filter (fun r => is_unexpected r
                                   || outcome_is (outcome (test r)) "flaky")
                         rs))).
Proof.
  intros Hreach Hne Hw rs.
  pose proof (reachable_wf_store env st Hreach) as Hwf.
  assert (Hing : Forall (ingested env) (_testRecords st)).
  { destruct Hreach as (config & evs & <-). apply reachable_store. }
  destruct (processTestResults_total _ Hwf) as [res Hres].
  assert (Hcount : r_testCount res <> 0%Z).
  { destruct (processTestResults_ok _ _ Hres) as (Hc & _). rewrite Hc.
    destruct (_testRecords st); [contradiction|cbn [length]; lia]. }
  destruct (onEnd_last_run env st res Hres Hcount Hw) as (st' & Hrun & Hfile).
  exists st'. split; [exact Hrun|].
  rewrite Hfile, (failures_nonempty env _ res Hing Hwf Hres).
  fold rs. do 3 f_equal. unfold rs, JsMap.values.
  clear - Hing. induction Hing as [|kv m Hkv _ IH]; [reflexivity|].
  cbn [map filter]. rewrite (ingested_status_is_failed env kv Hkv), IH.
  reflexivity.
Qed.

Lemma onEnd_writes_last_run_witness :
  exists st',
    onEnd Samples.env
      (snd (deliver_all Samples.env Samples.mixed_run
              (constructor Samples.config))) = (Ok tt, st') /\
    last_run_file st' = Some (LastRunJson "failed" ["id-api"]).
Proof.
  destruct (onEnd_writes_last_run Samples.env
              (snd (deliver_all Samples.env Samples.mixed_run
                      (constructor Samples.config))))
    as (st' & Hrun & Hfile).
  - exists Samples.config, Samples.mixed_run. reflexivity.
  - discriminate.
  - reflexivity.
  - exists st'. split; [exact Hrun|]. rewrite Hfile. reflexivity.
Defined.

(** ** The slowest tests, continued *)

(** X15. A negative limit does not empty the ranking: with limit [-n]
    [findSlowestTests] returns the full ranking without its last [n]
    entries (nothing, when the pool has no more than [n]). *)
Theorem findSlowestTests_negative (m : Store) (n : nat) :
  let pool := passed_attempts (JsMap.values m) in
  let ranking := findSlowestTests m (Z.of_nat (length pool)) in
  Permutation ranking pool /\
  findSlowestTests m (- Z.of_nat (S n)) = firstn (length pool - S n) ranking /\
  length (findSlowestTests m (- Z.of_nat (S n))) = (length pool - S n)%nat.
Proof.
  intros pool ranking.
  set (sorted := JsArray.sort by_duration_desc pool).
  assert (Hlen : length sorted = length pool)
    by apply Permutation_length, sort_perm.
  assert (Hr : ranking = sorted).
  { unfold ranking, findSlowestTests. fold pool. fold sorted.
    rewrite slice0_count. apply firstn_all2. lia. }
  assert (Hneg : findSlowestTests m (- Z.of_nat (S n))
                 = firstn (length pool - S n) sorted).
  { unfold findSlowestTests, JsArray.slice0. fold pool. fold sorted.
    destruct (Z.ltb_spec (- Z.of_nat (S n)) 0) as [_|Hge]; [|lia].
    f_equal. rewrite Hlen. lia. }
  split; [rewrite Hr; apply sort_perm|].
  split; [now rewrite Hr|].
  rewrite Hneg, length_firstn. lia.
Qed.

(** ** The two failure records of an attempt *)

Lemma getOwningTeam_nonempty (env : Env) (tc : TestCase) :
  getOwningTeam env tc <> "".
Proof.
  unfold getOwningTeam. rewrite or_else_empty.
  destruct (find (fun team => includes (title tc) (wrap team)) Team)
    as [team|] eqn:Hfind.
  { apply find_some in Hfind. now apply Team_names_nonempty. }
  destruct (recognised (annotation_description "team" (annotations tc)))
    eqn:E1; [now apply recognised_Some in E1|].
  destruct (recognised (annotation_description "owner" (annotations tc)))
    eqn:E2; [now apply recognised_Some in E2|].
  destruct (recognised (FALLBACK_TEAM env)) eqn:E3;
    [now apply recognised_Some in E3|discriminate].
Qed.

(** X16. For a test with one failed attempt, the failure written at once
    by [onTestEnd] and the failure built at the end by result processing
    name the same test, suite, team, file, location and duration (the
    fallbacks [Unknown Suite] and [Unknown Team] of result processing
    change nothing).  They carry the same message and category when the
    first error has a message; when it has none the first says
    [Unknown error] and the second [No error message], and with no error
    at all the second has the empty message.  The stacks agree when
    there is at most one error. *)
Theorem provisional_and_final_failure (env : Env) (tc : TestCase)
    (result : TestResult) :
  let early := provisional_failure env tc result in
  let final :=
    unexpected_failure (testCaseDetails_of env tc) (attempt_of result) in
  (f_testId final = f_testId early /\
   f_testTitle final = f_testTitle early /\
   f_suiteTitle final = f_suiteTitle early /\
   f_owningTeam final = f_owningTeam early /\
   f_testFile final = f_testFile early /\
   f_location final = f_location early /\
   f_duration final = f_duration early) /\
  match res_errors result with
  | [] =>
      errorMessage early = "Unknown error" /\ errorMessage final = "" /\
      errorStack final = errorStack early
  | e :: rest =>
      match e_message e with
      | None | Some EmptyString =>
          errorMessage early = "Unknown error" /\
          errorMessage final = "No error message"
      | Some msg =>
          errorMessage early = msg /\ errorMessage final = msg /\
          errorCategory final = errorCategory early
      end /\
      match rest with
      | [] => errorStack final = errorStack early
      | _ :: _ => True
      end
  end.
Proof.
  cbn zeta. split.
  - cbn [provisional_failure unexpected_failure testCaseDetails_of
         f_testId f_testTitle f_suiteTitle f_owningTeam f_testFile f_location
         f_duration testId testTitle suiteTitle owningTeam testFile location
         attempt_of duration opt_or_else].
    repeat split.
    + destruct (parent_title tc) as [[|c p]|]; reflexivity.
    + pose proof (getOwningTeam_nonempty env tc) as Hne.
      destruct (getOwningTeam env tc); [contradiction|reflexivity].
  - unfold provisional_failure, unexpected_failure, attempt_of,
      first_error_field.
    cbn [errorMessage errorStack errorCategory errors].
    destruct (res_errors result) as [|e rest]; [repeat split|].
    split.
    + cbn [map hd_error option_map message].
      destruct (e_message e) as [[|c msg]|]; repeat split.
    + destruct rest; [|exact I]. cbn [map join stack].
      destruct (e_stack e) as [[|c s]|]; reflexivity.
Qed.

(** ** Processing a store in parts *)

(** X17. Result processing distributes over joining stores: when it
    returns on two stores, on the second put after the first it returns
    the two results put together, counts added and the failures and
    passed durations of the first followed by those of the second; it
    raises on the whole when it raises on a part. *)
Theorem processTestResults_app (m1 m2 : Store) :
  match processTestResults m1, processTestResults m2 with
  | Ok r1, Ok r2 => processTestResults (m1 ++ m2) = Ok (merge_results r1 r2)
  | _, _ => is_ok (processTestResults (m1 ++ m2)) = false
  end.
Proof.
  assert (Hok : forall m,
             is_ok (processTestResults m) = forallb processable (JsMap.values m)).
  { intros m. unfold processTestResults. rewrite processTestResultsM_unfold.
    pose proof (for_of_processRecord_is_ok (JsMap.values m) locals0 m) as H.
    destruct (for_of processRecord (JsMap.values m) locals0 m)
      as [[acc|e] s']; cbn [fst is_ok] in *; [now rewrite H|now destruct H]. }
  assert (Happ : is_ok (processTestResults (m1 ++ m2)) =
                 is_ok (processTestResults m1) && is_ok (processTestResults m2)).
  { rewrite !Hok. unfold JsMap.values. now rewrite map_app, forallb_app. }
  destruct (processTestResults m1) as [r1|e1] eqn:H1;
    destruct (processTestResults m2) as [r2|e2] eqn:H2;
    cbn [is_ok andb] in Happ; try exact Happ.
  destruct (processTestResults (m1 ++ m2)) as [r|e] eqn:H; [|discriminate].
  destruct (processTestResults_ok _ _ H1) as (A1 & A2 & A3 & A4 & A5 & A6 & _).
  destruct (processTestResults_ok _ _ H2) as (B1 & B2 & B3 & B4 & B5 & B6 & _).
  destruct (processTestResults_ok _ _ H) as (C1 & C2 & C3 & C4 & C5 & C6 & _).
  unfold JsMap.values, count_disposition in *.
  rewrite map_app in C2, C3, C4, C5.
  rewrite filter_app, length_app, Nat2Z.inj_add in C2, C3.
  rewrite flat_map_app in C4, C5. rewrite length_app, Nat2Z.inj_add in C1.
  destruct r as [pc tc sc fc fs pd], r1 as [pc1 tc1 sc1 fc1 fs1 pd1],
           r2 as [pc2 tc2 sc2 fc2 fs2 pd2].
  unfold merge_results.
  cbn [r_passedCount r_testCount r_skippedCount r_failedCount r_failures
       r_passedDurations] in *.
  subst. rewrite length_app, Nat2Z.inj_add. reflexivity.
Qed.

(** ** The last-run record of a run *)

(** A record captures the outcome of the first report of its title. *)
Lemma deliver_all_not_flaky (env : Env) (evs : list Event) (seen : list string)
    (st : State) :
  (forall k, In k (JsMap.keys (_testRecords st)) <-> In k seen) ->
  Forall not_flaky (_testRecords st) ->
  first_reports_not_flaky seen evs = true ->
  Forall not_flaky (_testRecords (snd (deliver_all env evs st))).
Proof.
  revert seen st; induction evs as [|ev evs IH]; intros seen st Hk Hnf Hfirst.
  - exact Hnf.
  - cbn [deliver_all]. unfold bind.
    destruct (deliver_effect env ev st) as (s1 & Hrun & _).
    rewrite Hrun. destruct ev as [e|t r]; cbn [first_reports_not_flaky] in Hfirst.
    + destruct (onError_effect e st) as (s1' & Hrun' & _ & Hm & _).
      cbn [deliver] in Hrun. rewrite Hrun' in Hrun. inversion Hrun; subst s1'.
      apply (IH seen); rewrite ?Hm; assumption.
    + apply andb_true_iff in Hfirst. destruct Hfirst as [Hthis Hrest].
      assert (Hs1 : _testRecords s1 =
                    JsMap.set (title t)
                      (push_attempt (attempt_of r)
                         (record_for env t (_testRecords st)))
                      (_testRecords st)).
      { rewrite <- (onTestEnd_store env t r st). cbn [deliver] in Hrun.
        now rewrite Hrun. }
      apply (IH (title t :: seen)); [| |exact Hrest].
      * intros k. rewrite Hs1, keys_set.
        destruct (JsMap.has (title t) (_testRecords st)) eqn:Hhas.
        -- rewrite Hk. apply has_In in Hhas. apply Hk in Hhas.
           cbn [In]. split; [now right|intros [<-|H]; assumption].
        -- rewrite in_app_iff, Hk. cbn [In]. tauto.
      * rewrite Hs1. apply set_Forall; [exact Hnf|].
        unfold not_flaky, record_for. cbn [snd push_attempt test].
        destruct (JsMap.get (title t) (_testRecords st)) as [r0|] eqn:Hget.
        -- apply get_In in Hget. rewrite Forall_forall in Hnf.
           exact (Hnf _ Hget).
        -- assert (Hnew : existsb (String.eqb (title t)) seen = false).
           { apply Bool.not_true_iff_false. intros Hex.
             apply existsb_exists in Hex. destruct Hex as (k & Hin & Heq).
             apply String.eqb_eq in Heq. subst k. apply Hk, has_In in Hin.
             unfold JsMap.has in Hin. now rewrite Hget in Hin. }
           rewrite Hnew in Hthis. cbn [orb] in Hthis.
           cbn [test testCaseDetails_of outcome].
           destruct (case_outcome t); cbn [outcome_label];
             discriminate.
Qed.

(** In a store made by ingestion with no [flaky] record, the records
    [saveLastRunStatus] lists are those result processing reports a
    failure for, and their ids are the ids the failures carry. *)
Lemma failed_tests_are_failures (env : Env) (m : Store) :
  Forall (ingested env) m ->
  Forall not_flaky m ->
  wf_store m ->
  map (fun r => opt_or_else (testId (test r)) "")
      (filter status_is_failed (JsMap.values m))
    = failed_test_ids_spec m /\
  map (fun r => opt_or_else (testId (test r)) "")
      (filter status_is_failed (JsMap.values m))
    = map (fun f => opt_or_else (f_testId f) "")
          (flat_map failures_of (JsMap.values m)).
Proof.
  unfold failed_test_ids_spec, JsMap.values.
  induction 1 as [|kv m Hkv _ IH]; intros Hnf Hwf; [split; reflexivity|].
  inversion Hnf as [|? ? Hthis Hnf']; subst.
  inversion Hwf as [|? ? Hne Hwf']; subst.
  destruct (IH Hnf' Hwf') as [IH1 IH2].
  cbn [map filter flat_map].
  rewrite (ingested_status_is_failed env kv Hkv).
  destruct (ingested_disposition env kv Hkv) as [Hd _].
  destruct (last_elem_nonempty _ Hne) as [fa Hfa].
  unfold failures_of at 1. rewrite Hfa.
  assert (Hflaky : outcome_is (outcome (test (snd kv))) "flaky" = false).
  { unfold not_flaky in Hthis. unfold outcome_is.
    destruct (outcome (test (snd kv))) as [o|]; [|reflexivity].
    destruct (String.eqb_spec o "flaky"); congruence. }
  rewrite Hflaky, orb_false_r.
  destruct (is_unexpected (snd kv));
    [|destruct (outcome_is (outcome (test (snd kv))) "skipped")];
    rewrite Hd; cbn [map app];
    (split; [now rewrite IH1|now rewrite IH2]).
Qed.

(** C5. For a run that reported a test, in which no title is first
    reported as [flaky] (the runner never does) and the last-run file
    can be written, the last-run record [onEnd] writes has status
    [failed] exactly when result processing produced a failure, and
    [passed] otherwise; its [failedTests] are exactly the ids of the
    records result processing resolves as failed, which are the ids the
    failures carry, in the same order. *)
Theorem last_run_matches_failures (env : Env) (config : ReporterConfigInput)
    (evs : list Event) :
  first_reports_not_flaky [] evs = true ->
  event_titles evs <> [] ->
  writable env
    (path_join (outputDir (snd (deliver_all env evs (constructor config))))
               ".last-run.json") = true ->
  exists st res status failedTests,
    run env config evs = (Ok tt, st) /\
    processTestResults (_testRecords st) = Ok res /\
    last_run_file st = Some (LastRunJson status failedTests) /\
    (status = "failed" <-> r_failures res <> []) /\
    (status = "passed" <-> r_failures res = []) /\
    failedTests = failed_test_ids_spec (_testRecords st) /\
    failedTests = map (fun f => opt_or_else (f_testId f) "") (r_failures res).
Proof.
  intros Hfirst Hsome Hw.
  destruct (deliver_all_effect env evs (constructor config))
    as (st0 & Hrun & _).
  rewrite Hrun in Hw. cbn [snd] in Hw.
  destruct (reachable_store env config evs) as (_ & Hing & Hk & _).
  pose proof (deliver_all_not_flaky env evs [] (constructor config)) as Hnf.
  rewrite Hrun in Hing, Hk, Hnf. cbn [snd] in Hing, Hk, Hnf.
  specialize (Hnf (fun k => conj (fun H => H) (fun H => H))
                  (Forall_nil _) Hfirst).
  assert (Hwf : wf_store (_testRecords st0)).
  { apply (reachable_wf_store env). exists config, evs. now rewrite Hrun. }
  destruct (processTestResults_total _ Hwf) as [res Hres].
  assert (Hcount : r_testCount res <> 0%Z).
  { destruct (processTestResults_ok _ _ Hres) as (Hc & _). rewrite Hc.
    destruct (_testRecords st0) as [|kv m] eqn:Hm; [|cbn [length]; lia].
    exfalso. destruct (event_titles evs) as [|k ks]; [now apply Hsome|].
    apply (proj2 (Hk k)). now left. }
  destruct (onEnd_last_run env st0 res Hres Hcount Hw) as (st & Hend & Hfile).
  assert (Hstore : _testRecords st = _testRecords st0).
  { rewrite <- (onEnd_keeps_store env st0). now rewrite Hend. }
  destruct (failed_tests_are_failures env _ Hing Hnf Hwf) as [Hids Hcarry].
  destruct (processTestResults_ok _ _ Hres) as (_ & _ & _ & Hf & _).
  exists st, res, (if nonempty (r_failures res) then "failed" else "passed"),
    (map (fun r => opt_or_else (testId (test r)) "")
         (filter status_is_failed (JsMap.values (_testRecords st0)))).
  unfold run, bind. rewrite Hrun, Hstore.
  split; [exact Hend|]. split; [exact Hres|]. split; [exact Hfile|].
  split; [|split; [|split]].
  - destruct (r_failures res); cbn [nonempty];
      split; intros H; congruence || discriminate.
  - destruct (r_failures res); cbn [nonempty];
      split; intros H; congruence || discriminate.
  - exact Hids.
  - now rewrite Hf.
Qed.

Lemma last_run_matches_failures_witness :
  exists st,
    run Samples.env Samples.config Samples.mixed_run = (Ok tt, st) /\
    last_run_file st = Some (LastRunJson "failed" ["id-api"]).
Proof.
  destruct (last_run_matches_failures Samples.env Samples.config
              Samples.mixed_run)
    as (st & res & status & ids & Hrun & Hres & Hfile & Hst & _ & Hids & _).
  - reflexivity.
  - discriminate.
  - reflexivity.
  - exists st. split; [exact Hrun|].
    rewrite Hfile, Hids. vm_compute in Hrun. inversion Hrun; subst st.
    vm_compute in Hres. inversion Hres; subst res.
    assert (Hs : status = "failed") by (apply Hst; discriminate).
    rewrite Hs. reflexivity.
Defined.
